(** * Janus: the Cedar policy splitter [splitCedarPolicies]

    A shallow embedding of [splitCedarPolicies] (policy-parser.ts) and the
    properties of it that the specification states.

    JavaScript strings are sequences of UTF-16 code units; a character
    [policyFile[i]] is one code unit, modelled as an [N].  The empty string
    that the code uses for "no character" ([prev] before the first
    iteration, [next] after the last character) is [None]. *)

From Stdlib Require Import String Ascii DecimalString DecimalNat.
From Stdlib Require Import List NArith Bool Arith Lia.
Import ListNotations.

Local Open Scope N_scope.

(** * The program *)

(** ** Characters and strings *)

Definition char := N.
Definition jsstring := list char.

Definition of_string (s : string) : jsstring :=
  map N_of_ascii (list_ascii_of_string s).

Definition semicolon : char := 59.
Definition slash : char := 47.
Definition star : char := 42.
Definition dquote : char := 34.
Definition backslash : char := 92.
Definition newline : char := 10.

(** [c === "x"] where [c] may be the empty string. *)
Definition is_char (c : option char) (x : char) : bool :=
  match c with
  | Some y => y =? x
  | None => false
  end.

(** A character or the empty string, as a string. *)
Definition str (c : option char) : jsstring :=
  match c with
  | Some x => [x]
  | None => []
  end.

(** ** [String.prototype.trim]

    ECMAScript's WhiteSpace and LineTerminator code points, all of which
    are single code units. *)
Definition is_white_space (c : char) : bool :=
  (c =? 9) || (c =? 10) || (c =? 11) || (c =? 12) || (c =? 13) || (c =? 32)
  || (c =? 160) || (c =? 5760)
  || ((8192 <=? c) && (c <=? 8202))
  || (c =? 8232) || (c =? 8233) || (c =? 8239) || (c =? 8287)
  || (c =? 12288) || (c =? 65279).

Fixpoint trimStart (s : jsstring) : jsstring :=
  match s with
  | [] => []
  | c :: t => if is_white_space c then trimStart t else s
  end.

Definition trimEnd (s : jsstring) : jsstring := List.rev (trimStart (List.rev s)).

Definition trim (s : jsstring) : jsstring := trimEnd (trimStart s).

(** ** The local variables of [splitCedarPolicies] *)

Record state := mkState {
  results : list jsstring;
  buf : jsstring;
  inString : bool;
  inLineComment : bool;
  inBlockComment : bool;
  prev : option char
}.

Definition initial : state :=
  {| results := []; buf := []; inString := false; inLineComment := false;
     inBlockComment := false; prev := None |}.

(** ** The loop *)

(** One iteration of the [for] loop on character [ch] with lookahead
    [next].  The boolean is [true] when the body executed [i++], so that
    the lookahead character has been consumed too. *)
Definition step (st : state) (ch : char) (next : option char) : state * bool :=
  if inLineComment st then
    ({| results := results st;
        buf := buf st ++ [ch];
        inString := inString st;
        inLineComment := if ch =? newline then false else inLineComment st;
        inBlockComment := inBlockComment st;
        prev := Some ch |}, false)
  else if inBlockComment st then
    ({| results := results st;
        buf := buf st ++ [ch];
        inString := inString st;
        inLineComment := inLineComment st;
        inBlockComment :=
          if is_char (prev st) star && (ch =? slash) then false
          else inBlockComment st;
        prev := Some ch |}, false)
  else if negb (inString st) && (ch =? slash) && is_char next slash then
    ({| results := results st;
        buf := (buf st ++ [ch]) ++ str next;
        inString := inString st;
        inLineComment := true;
        inBlockComment := inBlockComment st;
        prev := Some slash |}, true)
  else if negb (inString st) && (ch =? slash) && is_char next star then
    ({| results := results st;
        buf := (buf st ++ [ch]) ++ str next;
        inString := inString st;
        inLineComment := inLineComment st;
        inBlockComment := true;
        prev := Some star |}, true)
  else if (ch =? dquote) && negb (is_char (prev st) backslash) then
    ({| results := results st;
        buf := buf st ++ [ch];
        inString := negb (inString st);
        inLineComment := inLineComment st;
        inBlockComment := inBlockComment st;
        prev := Some ch |}, false)
  else
    let buf1 := buf st ++ [ch] in
    if negb (inString st) && (ch =? semicolon) then
      let policy := trim buf1 in
      ({| results :=
            if (0 <? List.length policy)%nat then results st ++ [policy]
            else results st;
          buf := [];
          inString := inString st;
          inLineComment := inLineComment st;
          inBlockComment := inBlockComment st;
          prev := Some ch |}, false)
    else
      ({| results := results st;
          buf := buf1;
          inString := inString st;
          inLineComment := inLineComment st;
          inBlockComment := inBlockComment st;
          prev := Some ch |}, false).

(** The [for] loop over the remaining characters of [policyFile]. *)
Fixpoint scan (st : state) (d : jsstring) : state :=
  match d with
  | [] => st
  | ch :: rest =>
      let '(st', skip) := step st ch (hd_error rest) in
      match rest with
      | [] => st'
      | _ :: rest' => if skip then scan st' rest' else scan st' rest
      end
  end.

(** ** The returned object

    A [Record<string, string>] whose keys are not array indices keeps its
    properties in insertion order: an association list. *)
Definition record := list (jsstring * jsstring).

Fixpoint str_eqb (a b : jsstring) : bool :=
  match a, b with
  | [], [] => true
  | x :: a', y :: b' => (x =? y) && str_eqb a' b'
  | _, _ => false
  end.

(** [o[k] = v] *)
Fixpoint obj_set (k v : jsstring) (o : record) : record :=
  match o with
  | [] => [(k, v)]
  | (k', v') :: t =>
      if str_eqb k k' then (k', v) :: t else (k', v') :: obj_set k v t
  end.

(** [`policy_${idx}`] *)
Definition policy_key (idx : nat) : jsstring :=
  of_string ("policy_" ++ NilEmpty.string_of_uint (Nat.to_uint idx))%string.

Definition error_message : string :=
  ("Trailing content after last policy terminator ';'. " ++
   "The policy file may be missing a semicolon at the end.")%string.

(** The function either returns the object or throws [new Error(message)]:
    the one failure the specification calls TrailingContentError. *)
Inductive outcome :=
| Returned (finalResults : record)
| Thrown (message : string).

Definition assign (filteredResults : list jsstring) : record :=
  fold_left
    (fun finalResults idx =>
       obj_set (policy_key idx) (nth idx filteredResults []) finalResults)
    (seq 0 (List.length filteredResults)) [].

(** [logger.debug] only reports the result and is left out. *)
Definition splitCedarPolicies (policyFile : jsstring) : outcome :=
  let st := scan initial policyFile in
  let tail := trim (buf st) in
  if (0 <? List.length tail)%nat then Thrown error_message
  else
    let filteredResults :=
      filter (fun p => (0 <? List.length p)%nat) (results st) in
    Returned (assign filteredResults).

(** The statements of a returned object, in order ([Object.values]). *)
Definition values (o : record) : list jsstring := map snd o.
Definition keys (o : record) : list jsstring := map fst o.

(** * The callers of [splitCedarPolicies]

    [AuthorizationService] (authorization-service.ts) keeps the object
    returned by [splitCedarPolicies]; it reads the user details
    (user-details-service.ts) and the files of the deployment
    (file-loader.ts), and is set up by the middleware
    (authorization-middleware.ts).  The Cedar engine, [JSON.parse] and the
    file system are outside of the repository: the values they work on are
    type parameters, [JSON.parse] and [fs.readFileSync] are function
    parameters. *)

Set Implicit Arguments.

(** ** Exceptions *)

Inductive exn :=
| TypeError
| Error (message : jsstring)
| MissingAuthenticatedUserDetailsError
| MissingAuthorizationActionError
| MissingAuthorizationResourceError
| MissingAuthorizationPolicyError
| MissingAuthorizationSchemaError.

(** A call returns a value or throws. *)
Inductive result (A : Type) : Type :=
| Ok (a : A)
| Throw (e : exn).

Arguments Throw {A} e.

(** [!s] is false for a string that is defined and not empty. *)
Definition truthy (s : option jsstring) : bool :=
  match s with
  | Some (_ :: _) => true
  | _ => false
  end.

(** [`${s}`] *)
Definition template (s : option jsstring) : jsstring :=
  match s with
  | Some x => x
  | None => of_string "undefined"
  end.

(** ** The API Gateway event, as far as the code reads it *)

Module Event.

(** The claim [cognito:groups]: absent, a string, or an array of strings. *)
Inductive Groups :=
| Absent
| One (group : jsstring)
| Many (groups : list jsstring).

Record Claims := {
  cognito_username : option jsstring;
  cognito_groups : Groups
}.

Record Authorizer := { claims : option Claims }.

Record RequestContext := { authorizer : option Authorizer }.

(** An object with string keys is the function from a key to the value of
    the property, if there is one. *)
Record APIGatewayProxyEvent := {
  requestContext : option RequestContext;
  headers : option (jsstring -> option jsstring)
}.

End Event.

(** ** user-details-service.ts *)

Module UserDetails.

(** The variables of the module. *)
Record t := {
  userName : option jsstring;
  roles : option (list jsstring)
}.

Definition initial : t := {| userName := None; roles := None |}.

(** Reading [claims["cognito:username"]] when [claims] is undefined throws
    a [TypeError], before anything is assigned. *)
Definition setUserDetails (authenticatedEvent : Event.APIGatewayProxyEvent)
  (s : t) : result unit * t :=
  match Event.requestContext authenticatedEvent with
  | None => (Ok tt, s)
  | Some requestContext =>
      match Event.authorizer requestContext with
      | None => (Ok tt, s)
      | Some authorizer =>
          match Event.claims authorizer with
          | None => (Throw TypeError, s)
          | Some claims =>
              (Ok tt,
               {| userName := Event.cognito_username claims;
                  roles :=
                    match Event.cognito_groups claims with
                    | Event.One group => Some ([] ++ [group])
                    | Event.Many groups => Some groups
                    | Event.Absent => None
                    end |})
          end
      end
  end.

Definition getUserName (s : t) : option jsstring := userName s.

Definition getRoles (s : t) : option (list jsstring) := roles s.

Definition resetDetails (s : t) : t := {| userName := None; roles := None |}.

End UserDetails.

(** ** file-loader.ts *)

(** [readFileSync fileName] stands for
    [fs.readFileSync(path.join(__dirname, fileName), 'utf-8')]: the
    contents of the file, or the message of the error thrown. *)
Definition loadFileAsString (readFileSync : jsstring -> jsstring + jsstring)
  (fileName : jsstring) : result jsstring :=
  match readFileSync fileName with
  | inl data => Ok data
  | inr message =>
      Throw (Error (of_string "Error reading file " ++ fileName
                    ++ of_string ": " ++ message))
  end.

(** ** The types of cedar-wasm that the service builds *)

Module Cedar.

Record TypeAndId := { type : jsstring; id : jsstring }.

Inductive EntityUidJson :=
| Uid (uid : TypeAndId)
| EntityEscape (__entity : TypeAndId).

(** [CedarValueJson] is the parameter [V]. *)
Record EntityJson (V : Type) := {
  uid : EntityUidJson;
  attrs : list (jsstring * V);
  parents : list EntityUidJson
}.

(** A schema is its text, or the parameter [J] of parsed JSON. *)
Inductive Schema (J : Type) :=
| SchemaText (text : jsstring)
| SchemaJson (json : J).

Arguments SchemaText {J} text.

Record PolicySet := { staticPolicies : record }.

Record AuthorizationCall (V J : Type) := {
  principal : EntityUidJson;
  action : EntityUidJson;
  resource : EntityUidJson;
  context : list (jsstring * V);
  schema : Schema J;
  validateRequest : bool;
  policies : PolicySet;
  entities : list (EntityJson V)
}.

End Cedar.

(** ** authorization-service.ts *)

Module AuthorizationService.

Definition POLICY_FILE_NAME : jsstring := of_string "policies.cedar".
Definition SCHEMA_FILE_NAME : jsstring := of_string "schema.cedarschema".

Record AuthorizationConfigType := {
  namespace : option jsstring;
  principleType : jsstring;
  resourceType : jsstring;
  roleType : jsstring
}.

(** The fields of an instance. *)
Record t (V : Type) := {
  authorizationConfig : AuthorizationConfigType;
  policy : record;
  schema : jsstring;
  action : option jsstring;
  resource : option jsstring;
  context : option (list (jsstring * V));
  entities : option (list (Cedar.EntityJson V))
}.

(** The instances created so far, an instance being known by its rank,
    and the static field [service]. *)
Record heap (V : Type) := {
  objects : list (t V);
  service : option nat
}.

Definition empty (V : Type) : heap V := {| objects := []; service := None |}.

(** The constructor; an error thrown by [splitCedarPolicies] goes
    through. *)
Definition new (V : Type) (policy schema : jsstring)
  (authorizationConfig : AuthorizationConfigType) : result (t V) :=
  match splitCedarPolicies policy with
  | Thrown message => Throw (Error (of_string message))
  | Returned statements =>
      Ok {| authorizationConfig := authorizationConfig;
            policy := statements;
            schema := schema;
            action := None;
            resource := None;
            context := None;
            entities := None |}
  end.

(** The methods that assign to [this]; each returns [this]. *)
Definition setAction (V : Type) (action' : jsstring) (this : t V) : t V :=
  {| authorizationConfig := authorizationConfig this;
     policy := policy this;
     schema := schema this;
     action := Some action';
     resource := resource this;
     context := context this;
     entities := entities this |}.

Definition setResource (V : Type) (resource' : jsstring) (this : t V) : t V :=
  {| authorizationConfig := authorizationConfig this;
     policy := policy this;
     schema := schema this;
     action := action this;
     resource := Some resource';
     context := context this;
     entities := entities this |}.

Definition setEntities (V : Type) (entities' : list (Cedar.EntityJson V))
  (this : t V) : t V :=
  {| authorizationConfig := authorizationConfig this;
     policy := policy this;
     schema := schema this;
     action := action this;
     resource := resource this;
     context := context this;
     entities := Some entities' |}.

Definition addEntity (V : Type) (entity : Cedar.EntityJson V) (this : t V)
  : t V :=
  setEntities
    (match entities this with
     | None => []
     | Some entities' => entities'
     end ++ [entity])
    this.

(** A method called on the instance of rank [this] of the heap. *)
Fixpoint assign_at (V : Type) (this : nat) (method : t V -> t V)
  (l : list (t V)) : list (t V) :=
  match l, this with
  | [], _ => []
  | o :: l', O => method o :: l'
  | o :: l', S n => o :: assign_at n method l'
  end.

Definition call (V : Type) (this : nat) (method : t V -> t V) (h : heap V)
  : heap V :=
  {| objects := assign_at this method (objects h); service := service h |}.

Definition validateAuthorizationProperties (V : Type) (this : t V)
  (details : UserDetails.t) : result unit :=
  if negb (truthy (UserDetails.getUserName details))
     || match UserDetails.getRoles details with None => true | Some _ => false end
  then Throw MissingAuthenticatedUserDetailsError
  else if negb (truthy (action this)) then
    Throw MissingAuthorizationActionError
  else if negb (truthy (resource this)) then
    Throw MissingAuthorizationResourceError
  else Ok tt.

Definition createSchema (V J : Type) (JSON_parse : jsstring -> option J)
  (this : t V) : Cedar.Schema J :=
  match JSON_parse (schema this) with
  | Some schema' => Cedar.SchemaJson schema'
  | None => Cedar.SchemaText (schema this)
  end.

(** [getRoles()?.map(f) ?? []] *)
Definition map_roles (A : Type) (f : jsstring -> A) (details : UserDetails.t)
  : list A :=
  match UserDetails.getRoles details with
  | Some roles => map f roles
  | None => []
  end.

Definition constructUserEntity (V : Type) (this : t V)
  (details : UserDetails.t) : result (Cedar.EntityJson V) :=
  match UserDetails.getUserName details with
  | Some ((_ :: _) as userName) =>
      Ok {| Cedar.uid :=
              Cedar.Uid
                {| Cedar.type :=
                     template (namespace (authorizationConfig this))
                     ++ principleType (authorizationConfig this);
                   Cedar.id := userName |};
            Cedar.attrs := [];
            Cedar.parents :=
              map_roles
                (fun role =>
                   Cedar.Uid
                     {| Cedar.type :=
                          template (namespace (authorizationConfig this))
                          ++ roleType (authorizationConfig this);
                        Cedar.id := role |})
                details |}
  | _ => Throw MissingAuthenticatedUserDetailsError
  end.

Definition constructRoleEntities (V : Type) (this : t V)
  (details : UserDetails.t) : list (Cedar.EntityJson V) :=
  map_roles
    (fun role =>
       {| Cedar.uid :=
            Cedar.Uid
              {| Cedar.type :=
                   template (namespace (authorizationConfig this))
                   ++ roleType (authorizationConfig this);
                 Cedar.id := role |};
          Cedar.attrs := [];
          Cedar.parents := [] |})
    details.

Definition build (V J : Type) (JSON_parse : jsstring -> option J)
  (this : t V) (details : UserDetails.t)
  : result (Cedar.AuthorizationCall V J) :=
  match validateAuthorizationProperties this details with
  | Throw e => Throw e
  | Ok _ =>
      match constructUserEntity this details with
      | Throw e => Throw e
      | Ok user =>
          let roles := constructRoleEntities this details in
          match UserDetails.getUserName details with
          | Some ((_ :: _) as userName) =>
              match action this with
              | Some ((_ :: _) as action') =>
                  match resource this with
                  | Some ((_ :: _) as resource') =>
                      Ok {| Cedar.principal :=
                              Cedar.Uid
                                {| Cedar.type :=
                                     template
                                       (namespace (authorizationConfig this))
                                     ++ principleType (authorizationConfig this);
                                   Cedar.id := userName |};
                            Cedar.action :=
                              Cedar.Uid
                                {| Cedar.type :=
                                     template
                                       (namespace (authorizationConfig this))
                                     ++ of_string "Action";
                                   Cedar.id := action' |};
                            Cedar.resource :=
                              Cedar.Uid
                                {| Cedar.type :=
                                     template
                                       (namespace (authorizationConfig this))
                                     ++ resourceType (authorizationConfig this);
                                   Cedar.id := resource' |};
                            Cedar.context :=
                              match context this with
                              | Some context' => context'
                              | None => []
                              end;
                            Cedar.schema := createSchema JSON_parse this;
                            Cedar.validateRequest := true;
                            Cedar.policies :=
                              {| Cedar.staticPolicies := policy this |};
                            Cedar.entities :=
                              [user]
                              ++ match entities this with
                                 | Some entities' => entities'
                                 | None => []
                                 end
                              ++ roles |}
                  | _ => Throw MissingAuthorizationResourceError
                  end
              | _ => Throw MissingAuthorizationActionError
              end
          | _ => Throw MissingAuthenticatedUserDetailsError
          end
      end
  end.

(** [getService]: the instance returned, by its rank, and the heap after
    the call. *)
Definition getService (V : Type)
  (readFileSync : jsstring -> jsstring + jsstring)
  (authorizationConfig : AuthorizationConfigType) (refresh : bool)
  (h : heap V) : result nat * heap V :=
  match (if negb refresh then service h else None) with
  | Some cached => (Ok cached, h)
  | None =>
      match loadFileAsString readFileSync POLICY_FILE_NAME with
      | Throw _ => (Throw MissingAuthorizationPolicyError, h)
      | Ok policy =>
          match loadFileAsString readFileSync SCHEMA_FILE_NAME with
          | Throw _ => (Throw MissingAuthorizationSchemaError, h)
          | Ok schema =>
              match new V policy schema authorizationConfig with
              | Throw e => (Throw e, h)
              | Ok this =>
                  (Ok (List.length (objects h)),
                   {| objects := objects h ++ [this];
                      service := Some (List.length (objects h)) |})
              end
          end
      end
  end.

End AuthorizationService.

(** ** authorization-middleware.ts *)

Module Middleware.

(** The variables of the module user-details and the instances of the
    service. *)
Record world (V : Type) := {
  userDetails : UserDetails.t;
  authorization : AuthorizationService.heap V
}.

(** The [before] hook of [loadCedarAuthorization(authorizationConfig)]. *)
Definition before (V : Type)
  (readFileSync : jsstring -> jsstring + jsstring)
  (authorizationConfig : AuthorizationService.AuthorizationConfigType)
  (event : Event.APIGatewayProxyEvent) (w : world V)
  : result unit * world V :=
  let refresh :=
    match Event.headers event with
    | None => false
    | Some headers =>
        if truthy (headers (of_string "cedar-refresh")) then
          match headers (of_string "cedar-refresh") with
          | Some value => str_eqb value (of_string "true")
          | None => false
          end
        else false
    end in
  match UserDetails.setUserDetails event (userDetails w) with
  | (Throw e, details) =>
      (Throw e, {| userDetails := details; authorization := authorization w |})
  | (Ok _, details) =>
      match AuthorizationService.getService readFileSync authorizationConfig
              refresh (authorization w) with
      | (Throw e, h) =>
          (Throw e, {| userDetails := details; authorization := h |})
      | (Ok _, h) =>
          (Ok tt, {| userDetails := details; authorization := h |})
      end
  end.

End Middleware.

Unset Implicit Arguments.

(** * Vocabulary of the properties *)

(** ** Positions and modes of the scan *)

(** The state right after a statement has been cut: nothing pending, no
    mode set. *)
Definition fresh (p : option char) (rs : list jsstring) : state :=
  {| results := rs; buf := []; inString := false; inLineComment := false;
     inBlockComment := false; prev := p |}.

(** Inside a line comment or a block comment. *)
Definition in_comment (st : state) : bool :=
  inLineComment st || inBlockComment st.

(** A structural position: outside any string literal or comment. *)
Definition structural (st : state) : bool :=
  negb (inString st) && negb (in_comment st).

(** The iteration on [ch] cuts a statement. *)
Definition splits_here (st : state) (ch : char) : bool :=
  structural st && (ch =? semicolon).

(** What an iteration appends to the pending buffer when it does not cut. *)
Definition consumed (ch : char) (next : option char) (skip : bool) : jsstring :=
  ch :: (if skip then str next else []).

(** The last character read once [d] has been scanned, [p] being the last
    one read before [d]. *)
Definition last_char (d : jsstring) (p : option char) : option char :=
  match d with
  | [] => p
  | _ :: _ => Some (last d 0)
  end.

(** Where a document may be cut in two without changing the scan: not
    between a slash and a character that would make it open a comment. *)
Definition safe_cut (a b : jsstring) : Prop :=
  a = [] \/ last a 0 <> slash \/
  (is_char (hd_error b) slash = false /\ is_char (hd_error b) star = false).

(** The state after a character that is neither a quote, a slash nor a
    terminator, read outside a comment. *)
Definition after_plain (st : state) (ch : char) : state :=
  {| results := results st; buf := buf st ++ [ch];
     inString := inString st;
     inLineComment := false; inBlockComment := false;
     prev := Some ch |}.

(** The state after a double quote read outside a comment. *)
Definition after_quote (st : state) (escaped : bool) : state :=
  {| results := results st; buf := buf st ++ [dquote];
     inString := if escaped then inString st else negb (inString st);
     inLineComment := false; inBlockComment := false;
     prev := Some dquote |}.

(** The state after the characters [s] of a string literal. *)
Definition after_literal (st : state) (s : jsstring) : state :=
  {| results := results st; buf := buf st ++ s;
     inString := true; inLineComment := false; inBlockComment := false;
     prev := last_char s (prev st) |}.

(** The state after a run of blanks read outside a comment. *)
Definition after_blanks (st : state) (w : jsstring) : state :=
  {| results := results st; buf := buf st ++ w;
     inString := inString st;
     inLineComment := false; inBlockComment := false;
     prev := last_char w (prev st) |}.

(** The characters [s], read after [p], leave a string literal open: every
    double quote among them comes right after a backslash. *)
Fixpoint stays_in_string (p : option char) (s : jsstring) : bool :=
  match s with
  | [] => true
  | c :: t =>
      negb ((c =? dquote) && negb (is_char p backslash)) &&
      stays_in_string (Some c) t
  end.

(** While a string literal or a comment is open, something other than
    whitespace is pending, and a string literal is never open inside a
    comment. *)
Definition consistent (st : state) : Prop :=
  (inString st = true -> in_comment st = false) /\
  (forallb is_white_space (buf st) = true -> structural st = true).

(** The modes of two states agree, up to a [prev] that makes no
    difference: outside a comment [prev] is only compared with a
    backslash. *)
Definition same_mode (s s' : state) : Prop :=
  inString s = inString s' /\
  inLineComment s = inLineComment s' /\
  inBlockComment s = inBlockComment s' /\
  (prev s = prev s' \/
   (in_comment s = false /\ is_char (prev s) backslash = false /\
    is_char (prev s') backslash = false)).

(** Two states in the same mode whose buffers differ by leading blanks and
    which have cut the same statements since [rs] and [rs']. *)
Definition similar (rs rs' : list jsstring) (s s' : state) : Prop :=
  same_mode s s' /\
  (exists news, results s = rs ++ news /\ results s' = rs' ++ news) /\
  (exists w, forallb is_white_space w = true /\ buf s = w ++ buf s').

(** A state at a structural position with only blanks pending, whose
    [prev] is not a backslash: the state in which a statement begins. *)
Definition at_statement_start (st : state) : Prop :=
  structural st = true /\ forallb is_white_space (buf st) = true /\
  is_char (prev st) backslash = false.

(** ** Statements, segments and documents *)

(** The entries of the object built from the retained statements. *)
Definition entries (l : list jsstring) (start len : nat) : record :=
  map (fun idx => (policy_key idx, nth idx l [])) (seq start len).

(** A statement as the loop cuts it: a buffer without its leading blanks,
    and the terminator. *)
Definition terminated (p : jsstring) : Prop :=
  exists body, p = trimStart body ++ [semicolon].

(** A segment of the document: some text and the terminator that ends
    it. *)
Definition ends_with_terminator (seg : jsstring) : Prop :=
  exists body, seg = body ++ [semicolon].

(** Documents made of comments and whitespace only, the comments being
    those the loop itself recognises: every character is inside a comment,
    opens one, or is a blank at a structural position. *)
Fixpoint comments_and_blanks (st : state) (d : jsstring) : bool :=
  match d with
  | [] => true
  | ch :: rest =>
      let '(st', skip) := step st ch (hd_error rest) in
      (in_comment st || skip || is_white_space ch) &&
      match rest with
      | [] => true
      | _ :: rest' =>
          if skip then comments_and_blanks st' rest'
          else comments_and_blanks st' rest
      end
  end.

Definition only_comments_and_whitespace (d : jsstring) : bool :=
  comments_and_blanks initial d.

(** ** Documents used as examples *)

(** Two statements, with blanks before the second one and before its
    terminator, and the object returned for them. *)
Definition two_policies : jsstring := of_string "permit(a); forbid(b) ;".

Definition two_policies_object : record :=
  [(of_string "policy_0", of_string "permit(a);");
   (of_string "policy_1", of_string "forbid(b) ;")].

(** A document that leaves a string literal open, the last character
    read being a backslash. *)
Definition open_literal_backslash : jsstring :=
  of_string "a == " ++ dquote :: of_string "x" ++ [backslash].

(** [permit(principal, action, resource) when { attr == "value;with;semicolons" };] *)
Definition quoted_semicolons : jsstring :=
  of_string "permit(principal, action, resource) when { attr == "
  ++ dquote :: of_string "value;with;semicolons"
  ++ dquote :: of_string " };".

(** ** Vocabulary of the further properties *)

(** [prev] is the last character pending; with nothing pending it is the
    terminator of the statement just cut, or nothing at the very
    beginning. *)
Definition pending_prev (st : state) : Prop :=
  match buf st with
  | [] => prev st = None \/ prev st = Some semicolon
  | _ :: _ => prev st = Some (last (buf st) 0)
  end.

(** A text without its whitespace. *)
Definition nonblank (s : jsstring) : jsstring :=
  filter (fun c => negb (is_white_space c)) s.

(** The policy file has no final terminator; the schema file is there. *)
Definition files_with_malformed_policy (fileName : jsstring)
  : jsstring + jsstring :=
  if str_eqb fileName AuthorizationService.POLICY_FILE_NAME
  then inl (of_string "permit(principal, action, resource)")
  else inl (of_string "{}").

(** The configuration of the tests of the service. *)
Definition order_service : AuthorizationService.AuthorizationConfigType :=
  {| AuthorizationService.namespace := Some (of_string "OrderService::");
     AuthorizationService.principleType := of_string "User";
     AuthorizationService.resourceType := of_string "Order";
     AuthorizationService.roleType := of_string "Role" |}.

(** The files of a deployment with one policy. *)
Definition files_with_one_policy (fileName : jsstring) : jsstring + jsstring :=
  if str_eqb fileName AuthorizationService.POLICY_FILE_NAME
  then inl (of_string "permit(principal, action, resource);")
  else inl (of_string "{}").

(** The instance created from these files, and the heap that holds it as
    the cached service. *)
Definition one_policy_service : AuthorizationService.t unit :=
  {| AuthorizationService.authorizationConfig := order_service;
     AuthorizationService.policy :=
       [(of_string "policy_0",
         of_string "permit(principal, action, resource);")];
     AuthorizationService.schema := of_string "{}";
     AuthorizationService.action := None;
     AuthorizationService.resource := None;
     AuthorizationService.context := None;
     AuthorizationService.entities := None |}.

Definition one_policy_heap : AuthorizationService.heap unit :=
  {| AuthorizationService.objects := [one_policy_service];
     AuthorizationService.service := Some 0%nat |}.

(** An order, as a caller adds it to the request. *)
Definition order_entity (orderId : jsstring) : Cedar.EntityJson unit :=
  {| Cedar.uid :=
       Cedar.Uid {| Cedar.type := of_string "OrderService::Order";
                    Cedar.id := orderId |};
     Cedar.attrs := [];
     Cedar.parents := [] |}.

(** The details of a customer, and the cached service once a caller has
    set the action, the resource and an order on it. *)
Definition customer_details : UserDetails.t :=
  {| UserDetails.userName := Some (of_string "customer-1");
     UserDetails.roles := Some [of_string "customers"] |}.

Definition get_order_service : AuthorizationService.t unit :=
  AuthorizationService.addEntity (order_entity (of_string "order-1"))
    (AuthorizationService.setResource (of_string "order-1")
       (AuthorizationService.setAction (of_string "getOrder")
          one_policy_service)).

(** [JSON.parse] that accepts no text. *)
Definition no_json (text : jsstring) : option unit := None.

(** The user is known: a name that is not empty, and roles. *)
Definition user_known (details : UserDetails.t) : bool :=
  truthy (UserDetails.userName details) &&
  match UserDetails.roles details with
  | Some _ => true
  | None => false
  end.

(** The configuration of the tests of the middleware, without namespace,
    an instance with it, and the request built from it for the customer. *)
Definition no_namespace_service : AuthorizationService.t unit :=
  {| AuthorizationService.authorizationConfig :=
       {| AuthorizationService.namespace := None;
          AuthorizationService.principleType := of_string "User";
          AuthorizationService.resourceType := of_string "Order";
          AuthorizationService.roleType := of_string "Role" |};
     AuthorizationService.policy := [];
     AuthorizationService.schema := of_string "{}";
     AuthorizationService.action := Some (of_string "getOrder");
     AuthorizationService.resource := Some (of_string "order-1");
     AuthorizationService.context := None;
     AuthorizationService.entities := None |}.

Definition no_namespace_call : Cedar.AuthorizationCall unit unit :=
  {| Cedar.principal :=
       Cedar.Uid {| Cedar.type := of_string "undefinedUser";
                    Cedar.id := of_string "customer-1" |};
     Cedar.action :=
       Cedar.Uid {| Cedar.type := of_string "undefinedAction";
                    Cedar.id := of_string "getOrder" |};
     Cedar.resource :=
       Cedar.Uid {| Cedar.type := of_string "undefinedOrder";
                    Cedar.id := of_string "order-1" |};
     Cedar.context := [];
     Cedar.schema := Cedar.SchemaText (of_string "{}");
     Cedar.validateRequest := true;
     Cedar.policies := {| Cedar.staticPolicies := [] |};
     Cedar.entities :=
       [ {| Cedar.uid :=
              Cedar.Uid {| Cedar.type := of_string "undefinedUser";
                           Cedar.id := of_string "customer-1" |};
            Cedar.attrs := [];
            Cedar.parents :=
              [Cedar.Uid {| Cedar.type := of_string "undefinedRole";
                            Cedar.id := of_string "customers" |}] |};
         {| Cedar.uid :=
              Cedar.Uid {| Cedar.type := of_string "undefinedRole";
                           Cedar.id := of_string "customers" |};
            Cedar.attrs := [];
            Cedar.parents := [] |} ] |}.

(** The event carries no authorizer. *)
Definition unauthenticated (event : Event.APIGatewayProxyEvent) : Prop :=
  Event.requestContext event = None \/
  exists requestContext,
    Event.requestContext event = Some requestContext /\
    Event.authorizer requestContext = None.

(** The user details after [setUserDetails] has been called for each event
    in turn. *)
Definition after_events (events : list Event.APIGatewayProxyEvent)
  (s : UserDetails.t) : UserDetails.t :=
  fold_left (fun details event =>
               snd (UserDetails.setUserDetails event details))
            events s.

(** The value of the header [cedar-refresh], if there is one. *)
Definition refresh_header (event : Event.APIGatewayProxyEvent)
  : option jsstring :=
  match Event.headers event with
  | Some headers => headers (of_string "cedar-refresh")
  | None => None
  end.

(** An event with Cognito claims, and events without authorizer, with
    the header [cedar-refresh] given. *)
Definition cognito_event (userName : jsstring) (groups : Event.Groups)
  : Event.APIGatewayProxyEvent :=
  {| Event.requestContext :=
       Some {| Event.authorizer :=
                 Some {| Event.claims :=
                           Some {| Event.cognito_username := Some userName;
                                   Event.cognito_groups := groups |} |} |};
     Event.headers := None |}.

Definition anonymous_event (refresh : jsstring) : Event.APIGatewayProxyEvent :=
  {| Event.requestContext := Some {| Event.authorizer := None |};
     Event.headers :=
       Some (fun name =>
               if str_eqb name (of_string "cedar-refresh") then Some refresh
               else None) |}.

(** ** Tactics *)

Ltac case_if :=
  match goal with
  | |- context [if ?c then _ else _] => destruct c eqn:?
  end.

Ltac bool_hyps :=
  repeat match goal with
  | H : _ && _ = true |- _ => apply andb_true_iff in H; destruct H
  | H : _ || _ = false |- _ => apply orb_false_iff in H; destruct H
  | H : negb _ = true |- _ => apply negb_true_iff in H
  | H : negb _ = false |- _ => apply negb_false_iff in H
  | H : (_ =? _) = true |- _ => apply N.eqb_eq in H
  end.

(** * Lemmas *)

(** ** Whitespace and [trim] *)

Lemma ws_not_special (c : char) :
  is_white_space c = true ->
  (c =? semicolon) = false /\ (c =? slash) = false /\ (c =? dquote) = false
  /\ (c =? backslash) = false /\ (c =? star) = false.
Proof.
  unfold is_white_space, semicolon, slash, dquote, backslash, star.
  intros H.
  repeat split; apply N.eqb_neq; intros ->; discriminate H.
Qed.

Lemma trimStart_ws_app (w s : jsstring) :
  forallb is_white_space w = true -> trimStart (w ++ s) = trimStart s.
Proof.
  induction w as [|c w IH]; simpl; [reflexivity|].
  intros H. apply andb_true_iff in H as [Hc Hw].
  rewrite Hc. auto.
Qed.

Lemma trimStart_nil_iff (s : jsstring) :
  trimStart s = [] <-> forallb is_white_space s = true.
Proof.
  induction s as [|c s IH]; simpl; [tauto|].
  destruct (is_white_space c); simpl; [exact IH|].
  split; discriminate.
Qed.

Lemma trimStart_decompose (s : jsstring) :
  exists w, s = w ++ trimStart s /\ forallb is_white_space w = true.
Proof.
  induction s as [|c s [w [E Hw]]]; simpl.
  - exists []. auto.
  - destruct (is_white_space c) eqn:Hc.
    + exists (c :: w). simpl. rewrite Hc, Hw. split; [congruence | reflexivity].
    + exists []. auto.
Qed.

Lemma trimStart_head (s : jsstring) (c : char) (t : jsstring) :
  trimStart s = c :: t -> is_white_space c = false.
Proof.
  induction s as [|x s IH]; simpl; [discriminate|].
  destruct (is_white_space x) eqn:Hx; auto.
  intros E. injection E as -> _. exact Hx.
Qed.

Lemma trimStart_idem (s : jsstring) : trimStart (trimStart s) = trimStart s.
Proof.
  destruct (trimStart s) as [|c t] eqn:E; [reflexivity|].
  simpl. now rewrite (trimStart_head _ _ _ E).
Qed.

(** Once a non-blank character has been seen, [trimStart] leaves what
    follows alone. *)
Lemma trimStart_app_nonblank (s x : jsstring) :
  forallb is_white_space s = false -> trimStart (s ++ x) = trimStart s ++ x.
Proof.
  induction s as [|c s IH]; simpl; [discriminate|].
  destruct (is_white_space c); simpl; auto.
Qed.

Lemma trimStart_snoc (s : jsstring) (c : char) :
  is_white_space c = false -> trimStart (s ++ [c]) = trimStart s ++ [c].
Proof.
  intros Hc. induction s as [|x s IH]; simpl.
  - now rewrite Hc.
  - destruct (is_white_space x); auto.
Qed.

Lemma trimEnd_snoc (s : jsstring) (c : char) :
  is_white_space c = false -> trimEnd (s ++ [c]) = s ++ [c].
Proof.
  intros Hc. unfold trimEnd. rewrite rev_app_distr. simpl. rewrite Hc.
  simpl. now rewrite rev_involutive.
Qed.

(** The statement cut at a terminator: leading blanks go, the rest stays. *)
Lemma trim_snoc (s : jsstring) (c : char) :
  is_white_space c = false -> trim (s ++ [c]) = trimStart s ++ [c].
Proof.
  intros Hc. unfold trim. rewrite trimStart_snoc by exact Hc.
  now apply trimEnd_snoc.
Qed.

Lemma trim_nil_iff (s : jsstring) :
  trim s = [] <-> forallb is_white_space s = true.
Proof.
  unfold trim, trimEnd. rewrite <- trimStart_nil_iff. split.
  - intros H. apply (f_equal (@List.rev char)) in H.
    rewrite rev_involutive in H. simpl in H.
    destruct (trimStart s) as [|c t] eqn:E; [reflexivity|].
    pose proof (trimStart_head _ _ _ E) as Hc.
    simpl in H. rewrite trimStart_snoc in H by exact Hc.
    destruct (trimStart (List.rev t)); discriminate H.
  - intros ->. reflexivity.
Qed.

(** ** One iteration *)

Lemma is_char_true (c : option char) (x : char) :
  is_char c x = true -> c = Some x.
Proof.
  destruct c as [y|]; simpl; [|discriminate].
  intros H. apply N.eqb_eq in H. now subst.
Qed.

Lemma step_skip (st : state) (ch : char) (next : option char) :
  snd (step st ch next) = true ->
  structural st = true /\ ch = slash /\
  (next = Some slash \/ next = Some star).
Proof.
  unfold step, structural, in_comment.
  destruct st as [rs b s lc bc p]; simpl.
  repeat case_if; simpl; try discriminate; intros _; bool_hyps; subst; simpl;
    destruct next as [n|]; simpl in *; try discriminate; bool_hyps; subst;
    auto.
Qed.

Lemma step_split (st : state) (ch : char) (next : option char) :
  splits_here st ch = true ->
  step st ch next =
  (fresh (Some semicolon) (results st ++ [trim (buf st ++ [semicolon])]), false).
Proof.
  unfold splits_here, structural, in_comment. intros H.
  destruct st as [rs b s lc bc p]; simpl in *.
  bool_hyps. subst. unfold step; simpl.
  rewrite trim_snoc by reflexivity.
  rewrite length_app. simpl.
  replace (0 <? List.length (trimStart b) + 1)%nat with true
    by (symmetry; apply Nat.ltb_lt; lia).
  reflexivity.
Qed.

Lemma step_nosplit (st : state) (ch : char) (next : option char) :
  splits_here st ch = false ->
  results (fst (step st ch next)) = results st /\
  buf (fst (step st ch next)) =
    buf st ++ consumed ch next (snd (step st ch next)).
Proof.
  unfold splits_here, structural, in_comment, step, consumed.
  destruct st as [rs b s lc bc p]; simpl.
  repeat case_if; simpl; intros H; try discriminate H;
    try (split; reflexivity);
    bool_hyps; subst; destruct next as [n|]; simpl in *;
    try discriminate; bool_hyps; subst;
    rewrite <- app_assoc; split; reflexivity.
Qed.

(** The lookahead only matters to an iteration on a slash that is followed
    by a slash or a star. *)
Lemma step_next_irrelevant (st : state) (ch : char) (n1 n2 : option char) :
  ch <> slash \/
  (is_char n1 slash = is_char n2 slash /\ is_char n1 star = is_char n2 star) ->
  step st ch n1 = step st ch n2.
Proof.
  intros [H | [H1 H2]].
  - unfold step. apply N.eqb_neq in H. rewrite H, !andb_false_r. reflexivity.
  - destruct (is_char n2 slash) eqn:E1.
    { apply is_char_true in H1, E1. now subst. }
    destruct (is_char n2 star) eqn:E2.
    { apply is_char_true in H2, E2. now subst. }
    unfold step. rewrite H1, H2, E1, E2, !andb_false_r. reflexivity.
Qed.

(** Outside a structural position the lookahead is not read. *)
Lemma step_next_unread (st : state) (ch : char) (n1 n2 : option char) :
  structural st = false -> step st ch n1 = step st ch n2.
Proof.
  destruct st as [rs b s lc bc p]. unfold structural, in_comment, step. simpl.
  destruct lc, bc, s; simpl; try reflexivity. discriminate.
Qed.

Lemma step_prev (st : state) (ch : char) (next : option char) :
  prev (fst (step st ch next)) =
  if snd (step st ch next) then next else Some ch.
Proof.
  unfold step. destruct st as [rs b s lc bc p]; simpl.
  repeat case_if; simpl; try reflexivity;
    destruct next as [n|]; simpl in *; bool_hyps; try discriminate;
    bool_hyps; subst; reflexivity.
Qed.

Lemma step_plain (st : state) (ch : char) (next : option char) :
  in_comment st = false ->
  (ch =? slash) = false -> (ch =? dquote) = false ->
  (ch =? semicolon) = false ->
  step st ch next = (after_plain st ch, false).
Proof.
  destruct st as [rs b s lc bc p]. unfold in_comment, after_plain. simpl.
  intros H H1 H2 H3. bool_hyps. subst. unfold step. simpl.
  rewrite H1, H2, H3, !andb_false_r. reflexivity.
Qed.

Lemma step_quote (st : state) (next : option char) :
  in_comment st = false ->
  step st dquote next = (after_quote st (is_char (prev st) backslash), false).
Proof.
  destruct st as [rs b s lc bc p]. unfold in_comment, after_quote. simpl.
  intros H. bool_hyps. subst. unfold step. simpl.
  rewrite !andb_false_r. simpl.
  destruct (is_char p backslash); reflexivity.
Qed.

Lemma step_in_string (st : state) (ch : char) (next : option char) :
  inString st = true -> in_comment st = false ->
  (ch =? dquote) && negb (is_char (prev st) backslash) = false ->
  step st ch next = (after_plain st ch, false).
Proof.
  destruct st as [rs b s lc bc p]. unfold in_comment, after_plain. simpl.
  intros -> H Hq. bool_hyps. subst. unfold step. simpl. rewrite Hq.
  reflexivity.
Qed.

(** ** The loop *)

Lemma scan_cons (st : state) (ch : char) (rest : jsstring) :
  scan st (ch :: rest) =
  scan (fst (step st ch (hd_error rest)))
       (if snd (step st ch (hd_error rest)) then tl rest else rest).
Proof.
  simpl. destruct (step st ch (hd_error rest)) as [st' k].
  destruct rest, k; reflexivity.
Qed.

Lemma scan_single (st : state) (ch : char) :
  scan st [ch] = fst (step st ch None).
Proof. simpl. now destruct (step st ch None). Qed.

(** Induction following the loop: an iteration consumes one character, or
    two when it opens a comment. *)
Lemma scan_ind2 (P : state -> jsstring -> Prop) :
  (forall st, P st []) ->
  (forall st ch rest,
     P (fst (step st ch (hd_error rest)))
       (if snd (step st ch (hd_error rest)) then tl rest else rest) ->
     P st (ch :: rest)) ->
  forall d st, P st d.
Proof.
  intros Hnil Hcons d.
  assert (H : forall n d, (List.length d <= n)%nat -> forall st, P st d).
  { induction n as [|n IH]; intros [|ch rest] Hl st; simpl in Hl;
      try apply Hnil; try lia.
    apply Hcons. apply IH.
    destruct (snd _); [destruct rest; simpl in *; lia | lia]. }
  intros st. now apply (H (List.length d)).
Qed.

(** A property kept by every iteration is kept by the loop. *)
Lemma scan_invariant (P : state -> Prop) :
  (forall st ch next, P st -> P (fst (step st ch next))) ->
  forall d st, P st -> P (scan st d).
Proof.
  intros Hstep d st.
  refine (scan_ind2 (fun st d => P st -> P (scan st d)) _ _ d st).
  - auto.
  - clear d st. intros st ch rest IH H. rewrite scan_cons. auto.
Qed.

(** [prev] always is the character just before the scan position. *)
Lemma scan_prev (d : jsstring) (st : state) :
  prev (scan st d) = last_char d (prev st).
Proof.
  refine (scan_ind2
    (fun st d => prev (scan st d) = last_char d (prev st)) _ _ d st).
  - reflexivity.
  - clear. intros st ch rest IH. rewrite scan_cons, IH, step_prev.
    destruct (snd (step st ch (hd_error rest))) eqn:K.
    + apply step_skip in K as (_ & _ & Hn).
      destruct rest as [|c2 [|c3 r]]; simpl in *;
        destruct Hn; try discriminate; reflexivity.
    + destruct rest as [|c2 r]; reflexivity.
Qed.

Lemma safe_cut_tail (c : char) (a b : jsstring) :
  safe_cut (c :: a) b -> safe_cut a b.
Proof.
  unfold safe_cut. destruct a as [|c2 a]; [auto|]. simpl.
  intros [H | H]; [discriminate | auto].
Qed.

Lemma scan_app (a b : jsstring) (st : state) :
  safe_cut a b -> scan st (a ++ b) = scan (scan st a) b.
Proof.
  revert b.
  refine (scan_ind2
    (fun st a => forall b, safe_cut a b -> scan st (a ++ b) = scan (scan st a) b)
    _ _ a st).
  - reflexivity.
  - clear. intros st ch rest IH b Hcut.
    rewrite <- app_comm_cons, !scan_cons.
    destruct rest as [|c2 r].
    + simpl app. simpl (hd_error []).
      assert (E : step st ch (hd_error b) = step st ch None).
      { apply step_next_irrelevant.
        destruct Hcut as [H | [H | H]]; [discriminate | now left | right].
        simpl in *. destruct H as [-> ->]. auto. }
      rewrite E.
      destruct (snd (step st ch None)) eqn:K.
      * apply step_skip in K as (_ & _ & [K | K]); discriminate.
      * reflexivity.
    + simpl hd_error in *. simpl tl in *.
      apply safe_cut_tail in Hcut.
      destruct (snd (step st ch (Some c2))).
      * apply IH. now apply safe_cut_tail in Hcut.
      * now apply (IH b).
Qed.

Lemma safe_cut_terminator (body rest : jsstring) :
  safe_cut (body ++ [semicolon]) rest.
Proof.
  right. left. rewrite last_last. discriminate.
Qed.

Lemma scan_results_grow (d : jsstring) (st : state) :
  exists news, results (scan st d) = results st ++ news.
Proof.
  refine (scan_ind2
    (fun st d => exists news, results (scan st d) = results st ++ news)
    _ _ d st).
  - intros s. exists []. now rewrite app_nil_r.
  - clear. intros st ch rest [news IH]. rewrite scan_cons, IH.
    destruct (splits_here st ch) eqn:S.
    + rewrite (step_split _ _ _ S). simpl. rewrite <- app_assoc. eauto.
    + destruct (step_nosplit st ch (hd_error rest) S) as [-> _]. eauto.
Qed.

(** What one iteration consumes, and what it leaves to the next one. *)
Lemma consumed_rest (st : state) (ch : char) (rest : jsstring) :
  ch :: rest =
  consumed ch (hd_error rest) (snd (step st ch (hd_error rest))) ++
  (if snd (step st ch (hd_error rest)) then tl rest else rest).
Proof.
  unfold consumed.
  destruct (snd (step st ch (hd_error rest))) eqn:K; [|reflexivity].
  apply step_skip in K as (_ & _ & K).
  destruct rest; simpl in *; [destruct K; discriminate | reflexivity].
Qed.

(** Either the loop cuts no statement in [d], and the whole of [d] is
    pending, or [d] has a first segment [seg ++ ";"] at whose terminator
    the first statement is cut. *)
Lemma scan_first_split (d : jsstring) (st : state) :
  (results (scan st d) = results st /\ buf (scan st d) = buf st ++ d) \/
  (exists seg rest,
     d = seg ++ semicolon :: rest /\
     scan st (seg ++ [semicolon]) =
       fresh (Some semicolon)
             (results st ++ [trim (buf st ++ seg ++ [semicolon])])).
Proof.
  refine (scan_ind2 (fun st d =>
    (results (scan st d) = results st /\ buf (scan st d) = buf st ++ d) \/
    (exists seg rest,
       d = seg ++ semicolon :: rest /\
       scan st (seg ++ [semicolon]) =
         fresh (Some semicolon)
               (results st ++ [trim (buf st ++ seg ++ [semicolon])])))
    _ _ d st).
  - intros s. left. now rewrite app_nil_r.
  - clear. intros st ch rest IH.
    destruct (splits_here st ch) eqn:S.
    + right. exists [], rest.
      pose proof S as S'. unfold splits_here in S'. bool_hyps. subst ch.
      split; [reflexivity|].
      simpl app. rewrite scan_cons, (step_split _ _ _ S). reflexivity.
    + destruct (step_nosplit st ch (hd_error rest) S) as [Hr Hb].
      pose proof (consumed_rest st ch rest) as Hd.
      rewrite scan_cons.
      set (k := snd (step st ch (hd_error rest))) in *.
      set (st' := fst (step st ch (hd_error rest))) in *.
      destruct IH as [[IHr IHb] | (seg & R & E & IH)].
      * left.
        rewrite IHr, IHb, Hr, Hb, Hd, <- app_assoc. auto.
      * right. exists (consumed ch (hd_error rest) k ++ seg), R.
        split; [rewrite <- app_assoc, <- E; exact Hd|].
        assert (Hscan : scan st ((consumed ch (hd_error rest) k ++ seg)
                                   ++ [semicolon]) =
                        scan st' (seg ++ [semicolon])).
        { rewrite <- app_assoc.
          assert (Hh : forall x, hd_error (seg ++ semicolon :: x) =
                                 hd_error (seg ++ [semicolon]))
            by (intros x; destruct seg; reflexivity).
          unfold consumed. subst k st'.
          destruct (snd (step st ch (hd_error rest))) eqn:K.
          - destruct rest as [|c2 r];
              [apply step_skip in K as (_ & _ & [K|K]); discriminate|].
            simpl in E. subst r. simpl hd_error in *.
            simpl app. rewrite scan_cons. simpl hd_error. rewrite K.
            reflexivity.
          - simpl in E. subst rest. simpl app. rewrite scan_cons.
            rewrite <- (Hh R), K. reflexivity. }
        rewrite Hscan, IH, Hr, Hb, <- !app_assoc. reflexivity.
Qed.

(** The loop cuts the document into segments, each up to and including a
    structural terminator; the statements are the trimmed segments and
    what follows the last terminator stays pending. *)
Lemma scan_segments (d : jsstring) (p : option char) (rs : list jsstring) :
  exists segs tail,
    d = concat segs ++ tail /\
    Forall ends_with_terminator segs /\
    results (scan (fresh p rs) d) = rs ++ map trim segs /\
    buf (scan (fresh p rs) d) = tail.
Proof.
  remember (List.length d) as n eqn:Hn.
  revert d p rs Hn.
  induction n as [n IH] using lt_wf_ind. intros d p rs ->.
  destruct (scan_first_split d (fresh p rs)) as [[Hr Hb] | (seg & rest & E & Hs)].
  - exists [], d. simpl in *. rewrite app_nil_r. auto.
  - simpl in Hs.
    destruct (IH (List.length rest)) with (d := rest) (p := Some semicolon)
      (rs := rs ++ [trim (seg ++ [semicolon])])
      as (segs & tail & E' & Hsegs & Hr & Hb); [|reflexivity|].
    { subst d. rewrite length_app. simpl. lia. }
    exists ((seg ++ [semicolon]) :: segs), tail.
    assert (Hd : d = (seg ++ [semicolon]) ++ rest)
      by (rewrite <- app_assoc; exact E).
    split; [|split; [|split]].
    + simpl. rewrite <- app_assoc, <- E', <- app_assoc. exact E.
    + constructor; [now exists seg | exact Hsegs].
    + rewrite Hd, scan_app by apply safe_cut_terminator.
      rewrite Hs, Hr. simpl. now rewrite <- app_assoc.
    + rewrite Hd, scan_app by apply safe_cut_terminator.
      now rewrite Hs.
Qed.

(** ** The returned object *)

Lemma str_eqb_eq (a b : jsstring) : str_eqb a b = true <-> a = b.
Proof.
  revert b. induction a as [|x a IH]; intros [|y b]; simpl;
    try (split; [discriminate | congruence]); [tauto|].
  rewrite andb_true_iff, N.eqb_eq, IH. split.
  - intros [-> ->]. reflexivity.
  - intros E. injection E. auto.
Qed.

Lemma of_string_inj (s t : string) : of_string s = of_string t -> s = t.
Proof.
  unfold of_string. intros E.
  rewrite <- (string_of_list_ascii_of_string s),
          <- (string_of_list_ascii_of_string t).
  f_equal.
  revert E. generalize (list_ascii_of_string s) (list_ascii_of_string t).
  induction l as [|a l IH]; intros [|b l']; simpl; try discriminate; auto.
  intros E. injection E as E1 E2. f_equal; [|auto].
  rewrite <- (ascii_N_embedding a), <- (ascii_N_embedding b). now f_equal.
Qed.

Lemma policy_key_inj (i j : nat) : policy_key i = policy_key j -> i = j.
Proof.
  unfold policy_key. intros E. apply of_string_inj in E.
  simpl in E. injection E as E.
  apply (f_equal NilEmpty.uint_of_string) in E.
  rewrite !NilEmpty.usu in E. injection E as E.
  apply (f_equal Nat.of_uint) in E.
  now rewrite !Unsigned.of_to in E.
Qed.

Lemma NoDup_map_injective {A B : Type} (f : A -> B) (l : list A) :
  (forall x y, f x = f y -> x = y) -> NoDup l -> NoDup (map f l).
Proof.
  intros Hf. induction 1 as [|x l Hx _ IH]; simpl; constructor; [|exact IH].
  rewrite in_map_iff. intros (y & E & Hy). apply Hf in E. now subst.
Qed.

Lemma obj_set_new (k v : jsstring) (o : record) :
  ~ In k (keys o) -> obj_set k v o = o ++ [(k, v)].
Proof.
  induction o as [|[k' v'] o IH]; simpl; [reflexivity|].
  intros H. destruct (str_eqb k k') eqn:E.
  - apply str_eqb_eq in E. subst. tauto.
  - rewrite IH by tauto. reflexivity.
Qed.

Lemma keys_entries (l : list jsstring) (start len : nat) :
  keys (entries l start len) = map policy_key (seq start len).
Proof. unfold keys, entries. rewrite map_map. reflexivity. Qed.

Lemma assign_loop (l : list jsstring) (len start : nat) :
  fold_left
    (fun finalResults idx =>
       obj_set (policy_key idx) (nth idx l []) finalResults)
    (seq start len) (entries l 0 start) =
  entries l 0 (start + len).
Proof.
  revert start. induction len as [|len IH]; intros start; simpl.
  - now rewrite Nat.add_0_r.
  - rewrite obj_set_new.
    + replace (entries l 0 start ++ [(policy_key start, nth start l [])])
        with (entries l 0 (S start)).
      * rewrite IH. f_equal. lia.
      * unfold entries. rewrite seq_S, map_app. reflexivity.
    + rewrite keys_entries, in_map_iff. intros (i & E & Hi).
      apply policy_key_inj in E. apply in_seq in Hi. lia.
Qed.

Lemma assign_entries (l : list jsstring) :
  assign l = entries l 0 (List.length l).
Proof. unfold assign. exact (assign_loop l (List.length l) 0). Qed.

Lemma keys_assign (l : list jsstring) :
  keys (assign l) = map policy_key (seq 0 (List.length l)).
Proof. rewrite assign_entries. apply keys_entries. Qed.

Lemma values_assign (l : list jsstring) : values (assign l) = l.
Proof.
  rewrite assign_entries. unfold values, entries. rewrite map_map. simpl.
  induction l as [|x l IH]; [reflexivity|].
  simpl. f_equal. rewrite <- seq_shift, map_map. exact IH.
Qed.

(** Every statement the loop keeps ends with its terminator, so that the
    final [filter] keeps all of them. *)
Lemma step_terminated (st : state) (ch : char) (next : option char) :
  Forall terminated (results st) ->
  Forall terminated (results (fst (step st ch next))).
Proof.
  intros H. destruct (splits_here st ch) eqn:S.
  - rewrite (step_split _ _ _ S). simpl. apply Forall_app. split; [exact H|].
    constructor; [|constructor]. exists (buf st). now apply trim_snoc.
  - now destruct (step_nosplit st ch next S) as [-> _].
Qed.

Lemma scan_terminated (d : jsstring) (st : state) :
  Forall terminated (results st) -> Forall terminated (results (scan st d)).
Proof.
  apply (scan_invariant (fun s => Forall terminated (results s))).
  intros. now apply step_terminated.
Qed.

Lemma filter_terminated (l : list jsstring) :
  Forall terminated l -> filter (fun p => (0 <? List.length p)%nat) l = l.
Proof.
  induction 1 as [|p l [body ->] _ IH]; simpl; [reflexivity|].
  rewrite length_app, IH. simpl.
  replace (0 <? List.length (trimStart body) + 1)%nat with true
    by (symmetry; apply Nat.ltb_lt; lia).
  reflexivity.
Qed.

(** The function in one line: it throws when something other than blanks
    is pending at the end, and otherwise numbers the statements cut. *)
Lemma splitCedarPolicies_spec (d : jsstring) :
  splitCedarPolicies d =
  if forallb is_white_space (buf (scan initial d))
  then Returned (assign (results (scan initial d)))
  else Thrown error_message.
Proof.
  unfold splitCedarPolicies.
  rewrite filter_terminated by (apply scan_terminated; constructor).
  destruct (forallb is_white_space (buf (scan initial d))) eqn:W.
  - apply trim_nil_iff in W. rewrite W. reflexivity.
  - destruct (trim (buf (scan initial d))) eqn:T; [|reflexivity].
    apply trim_nil_iff in T. congruence.
Qed.

(** ** Comments and string literals *)

Lemma comments_and_blanks_cons (st : state) (ch : char) (rest : jsstring) :
  comments_and_blanks st (ch :: rest) =
  (in_comment st || snd (step st ch (hd_error rest)) || is_white_space ch) &&
  comments_and_blanks (fst (step st ch (hd_error rest)))
    (if snd (step st ch (hd_error rest)) then tl rest else rest).
Proof.
  simpl. destruct (step st ch (hd_error rest)) as [st' k].
  destruct rest, k; reflexivity.
Qed.

Lemma blanks_are_comments_and_blanks (d : jsstring) (st : state) :
  in_comment st = false -> forallb is_white_space d = true ->
  comments_and_blanks st d = true.
Proof.
  revert st. induction d as [|c d IH]; intros st Hc W; [reflexivity|].
  simpl in W. apply andb_true_iff in W as [Wc W].
  destruct (ws_not_special c Wc) as (H1 & H2 & H3 & _).
  rewrite comments_and_blanks_cons, step_plain by assumption.
  cbn [fst snd]. rewrite Wc, orb_true_r. simpl. now apply IH.
Qed.

(** In such a document no statement is cut: all of it stays pending. *)
Lemma comments_and_blanks_pending (d : jsstring) (st : state) :
  comments_and_blanks st d = true ->
  results (scan st d) = results st /\ buf (scan st d) = buf st ++ d.
Proof.
  refine (scan_ind2 (fun st d =>
    comments_and_blanks st d = true ->
    results (scan st d) = results st /\ buf (scan st d) = buf st ++ d)
    _ _ d st).
  - intros s _. now rewrite app_nil_r.
  - clear. intros st ch rest IH H.
    rewrite comments_and_blanks_cons in H.
    apply andb_true_iff in H as [Hc H].
    destruct (splits_here st ch) eqn:S.
    + exfalso. rewrite (step_split _ _ _ S) in Hc. simpl in Hc.
      unfold splits_here, structural in S. bool_hyps. subst ch.
      rewrite H2 in Hc. discriminate Hc.
    + destruct (step_nosplit st ch (hd_error rest) S) as [Hr Hb].
      destruct (IH H) as [IHr IHb].
      rewrite scan_cons, IHr, IHb, Hr, Hb, <- app_assoc.
      split; [reflexivity|]. f_equal. symmetry. apply consumed_rest.
Qed.

Lemma scan_in_string (s : jsstring) (st : state) (rest : jsstring) :
  inString st = true -> in_comment st = false ->
  stays_in_string (prev st) s = true ->
  scan st (s ++ rest) = scan (after_literal st s) rest.
Proof.
  revert st. induction s as [|c t IH]; intros st Hs Hc Hq.
  - simpl. f_equal. destruct st as [rs b s lc bc p].
    unfold in_comment, after_literal in *. simpl in *. bool_hyps. subst.
    now rewrite app_nil_r.
  - simpl in Hq. apply andb_true_iff in Hq as [Hq Ht].
    apply negb_true_iff in Hq.
    rewrite <- app_comm_cons, scan_cons, (step_in_string _ _ _ Hs Hc Hq).
    cbn [fst snd]. rewrite IH by (exact Hs || exact Ht || reflexivity).
    f_equal. unfold after_literal, after_plain. simpl.
    rewrite <- app_assoc. simpl. f_equal. now destruct t.
Qed.

(** A document may be cut where the scan is inside a string literal. *)
Lemma scan_app_in_string (a b : jsstring) (st : state) :
  inString (scan st a) = true -> scan st (a ++ b) = scan (scan st a) b.
Proof.
  refine (scan_ind2
    (fun st a => inString (scan st a) = true ->
                 scan st (a ++ b) = scan (scan st a) b) _ _ a st).
  - reflexivity.
  - clear. intros st ch rest IH H.
    rewrite <- app_comm_cons, !scan_cons. rewrite scan_cons in H.
    destruct rest as [|c2 r].
    + simpl app. simpl hd_error in *.
      assert (E : step st ch (hd_error b) = step st ch None).
      { destruct (structural st) eqn:S; [|now apply step_next_unread].
        apply step_next_irrelevant. left. intros ->.
        destruct (snd (step st slash None)) eqn:K.
        - apply step_skip in K as (_ & _ & [K | K]); discriminate.
        - simpl in H. unfold structural, in_comment in S.
          destruct st as [rs bf s lc bc p]. simpl in *. bool_hyps. subst.
          discriminate H. }
      rewrite E.
      destruct (snd (step st ch None)) eqn:K.
      * apply step_skip in K as (_ & _ & [K | K]); discriminate.
      * reflexivity.
    + simpl hd_error in *. simpl tl in *.
      destruct (snd (step st ch (Some c2))); now apply IH.
Qed.

Lemma step_consistent (st : state) (ch : char) (next : option char) :
  consistent st -> consistent (fst (step st ch next)).
Proof.
  destruct (splits_here st ch) eqn:S.
  - rewrite (step_split _ _ _ S). split; [discriminate | reflexivity].
  - destruct st as [rs b s lc bc p].
    unfold consistent, splits_here, structural, in_comment, step in *.
    simpl in *. intros [H1 H2].
    destruct s, lc, bc; simpl in *;
      try (specialize (H1 eq_refl); discriminate H1);
      repeat case_if; simpl; try discriminate S;
      (split; [first [discriminate | intros _; reflexivity]|]);
      try (intros _; reflexivity);
      intros Hx; rewrite !forallb_app in Hx; simpl in Hx; bool_hyps; subst;
      try discriminate;
      match goal with
      | H : forallb is_white_space b = true |- _ =>
          specialize (H2 H); discriminate H2
      end.
Qed.

Lemma scan_consistent (d : jsstring) : consistent (scan initial d).
Proof.
  apply (scan_invariant consistent).
  - intros st ch next. apply step_consistent.
  - split; [discriminate | reflexivity].
Qed.

(** ** Scanning the statements again *)

Lemma scan_blanks (w : jsstring) (st : state) (x : jsstring) :
  in_comment st = false -> forallb is_white_space w = true ->
  scan st (w ++ x) = scan (after_blanks st w) x.
Proof.
  revert st. induction w as [|c w IH]; intros st Hc Hw.
  - simpl. f_equal. destruct st as [rs b s lc bc p].
    unfold in_comment, after_blanks in *. simpl in *. bool_hyps. subst.
    now rewrite app_nil_r.
  - simpl in Hw. apply andb_true_iff in Hw as [Hcw Hw].
    destruct (ws_not_special c Hcw) as (H1 & H2 & H3 & _).
    rewrite <- app_comm_cons, scan_cons, step_plain by assumption.
    cbn [fst snd]. rewrite IH by (exact Hw || reflexivity).
    f_equal. unfold after_blanks, after_plain. simpl.
    rewrite <- app_assoc. simpl. f_equal. now destruct w.
Qed.

Lemma last_char_blanks (w : jsstring) (p : option char) :
  forallb is_white_space w = true -> is_char p backslash = false ->
  is_char (last_char w p) backslash = false.
Proof.
  destruct w as [|c w]; [auto|]. intros Hw _.
  assert (H : is_white_space (last (c :: w) 0) = true).
  { rewrite forallb_forall in Hw. apply Hw.
    destruct (@exists_last _ (c :: w)) as (l & a & E); [discriminate|].
    rewrite E, last_last. apply in_or_app. right. now left. }
  unfold last_char, is_char. now apply ws_not_special in H.
Qed.

Lemma last_char_terminator (body : jsstring) (p : option char) :
  last_char (body ++ [semicolon]) p = Some semicolon.
Proof.
  unfold last_char. rewrite last_last. now destruct body.
Qed.

(** The control flow of an iteration depends on the modes only. *)
Lemma step_same_mode (s s' : state) (ch : char) (next : option char) :
  same_mode s s' ->
  snd (step s ch next) = snd (step s' ch next) /\
  splits_here s ch = splits_here s' ch /\
  same_mode (fst (step s ch next)) (fst (step s' ch next)).
Proof.
  destruct s as [rs b s lc bc p], s' as [rs' b' s' lc' bc' p'].
  unfold same_mode, splits_here, structural, in_comment, step. simpl.
  intros (-> & -> & -> & [-> | (Hc & H1 & H2)]).
  - repeat case_if; simpl; auto 10.
  - bool_hyps. subst. simpl. rewrite H1, H2.
    repeat case_if; simpl; auto 10.
Qed.

Section Similar.

Variables rs rs' : list jsstring.

Lemma step_similar (s s' : state) (ch : char) (next : option char) :
  similar rs rs' s s' ->
  snd (step s ch next) = snd (step s' ch next) /\
  similar rs rs' (fst (step s ch next)) (fst (step s' ch next)).
Proof.
  intros (Hm & (news & Hr & Hr') & (w & Hw & Hb)).
  destruct (step_same_mode s s' ch next Hm) as (Hk & Hs & Hm').
  split; [exact Hk|]. split; [exact Hm'|].
  destruct (splits_here s ch) eqn:S; symmetry in Hs.
  - rewrite (step_split _ _ _ S), (step_split _ _ _ Hs). simpl. split.
    + exists (news ++ [trim (buf s' ++ [semicolon])]).
      rewrite Hr, Hr', Hb, !trim_snoc by reflexivity.
      rewrite trimStart_ws_app by exact Hw.
      rewrite <- !app_assoc. auto.
    + exists []. auto.
  - destruct (step_nosplit s ch next S) as [-> ->].
    destruct (step_nosplit s' ch next Hs) as [-> ->].
    split; [eauto|]. exists w. rewrite Hb, Hk, <- app_assoc. auto.
Qed.

Lemma scan_similar (d : jsstring) (s s' : state) :
  similar rs rs' s s' -> similar rs rs' (scan s d) (scan s' d).
Proof.
  revert s'.
  refine (scan_ind2
    (fun s d => forall s', similar rs rs' s s' ->
                           similar rs rs' (scan s d) (scan s' d)) _ _ d s).
  - auto.
  - clear. intros s ch rest IH s' H. rewrite !scan_cons.
    destruct (step_similar _ _ ch (hd_error rest) H) as [<- H'].
    now apply IH.
Qed.

End Similar.

Lemma fresh_at_statement_start (rs : list jsstring) :
  at_statement_start (fresh (Some semicolon) rs).
Proof. repeat split. Qed.

(** Scanning a statement in place of its segment cuts the same statement. *)
Lemma rescan_segment (st st' : state) (seg : jsstring) :
  at_statement_start st -> at_statement_start st' -> buf st' = [] ->
  scan st (seg ++ [semicolon]) =
    fresh (Some semicolon) (results st ++ [trim (buf st ++ seg ++ [semicolon])]) ->
  trim (buf st ++ seg ++ [semicolon]) = trimStart seg ++ [semicolon] /\
  scan st' (trimStart seg ++ [semicolon]) =
    fresh (Some semicolon)
          (results st' ++ [trim (buf st ++ seg ++ [semicolon])]).
Proof.
  intros (Hs & Hw & Hp) (Hs' & _ & Hp') Hb' Hscan.
  assert (Ht : trim (buf st ++ seg ++ [semicolon]) = trimStart seg ++ [semicolon]).
  { rewrite app_assoc, trim_snoc by reflexivity.
    now rewrite trimStart_ws_app. }
  split; [exact Ht|].
  destruct (trimStart_decompose seg) as (w & Eseg & Hww).
  assert (Hc : in_comment st = false)
    by (unfold structural in Hs; now bool_hyps).
  assert (Hc' : in_comment st' = false)
    by (unfold structural in Hs'; now bool_hyps).
  rewrite Eseg, <- app_assoc, (scan_blanks w st _ Hc Hww) in Hscan at 1.
  assert (Hsim : similar (results st) (results st') (after_blanks st w) st').
  { unfold structural, in_comment in Hs, Hs', Hc, Hc'. bool_hyps.
    split; [|split].
    - unfold same_mode. simpl. repeat split; try congruence.
      right. repeat split; [|exact Hp'].
      now apply last_char_blanks.
    - exists []. simpl. now rewrite !app_nil_r.
    - exists (buf st ++ w). simpl. rewrite Hb', app_nil_r, forallb_app, Hw, Hww.
      auto. }
  apply (scan_similar _ _ (trimStart seg ++ [semicolon])) in Hsim.
  rewrite Hscan in Hsim.
  destruct Hsim as ((Hi & Hl & Hk & _) & (news & Hn & Hr) & (w' & _ & Hb)).
  pose proof (scan_prev (trimStart seg ++ [semicolon]) st') as Hprev.
  rewrite last_char_terminator in Hprev.
  simpl in Hi, Hl, Hk, Hn, Hb.
  apply app_inv_head in Hn. subst news.
  symmetry in Hb. apply app_eq_nil in Hb as [_ Hb].
  destruct (scan st' (trimStart seg ++ [semicolon])) as [r b s l c p].
  simpl in *. subst. reflexivity.
Qed.

(** Scanning the statements cut from a document, one after the other,
    cuts the same statements again and leaves nothing pending. *)
Lemma rescan (d : jsstring) (st st' : state) :
  at_statement_start st -> at_statement_start st' -> buf st' = [] ->
  exists news,
    results (scan st d) = results st ++ news /\
    results (scan st' (concat news)) = results st' ++ news /\
    buf (scan st' (concat news)) = [].
Proof.
  remember (List.length d) as n eqn:Hn.
  revert d st st' Hn.
  induction n as [n IH] using lt_wf_ind. intros d st st' -> Hst Hst' Hb'.
  destruct (scan_first_split d st) as [[Hr _] | (seg & rest & E & Hs)].
  - exists []. simpl. rewrite Hr, !app_nil_r. auto.
  - destruct (rescan_segment st st' seg Hst Hst' Hb' Hs) as [Ht Hs'].
    set (t := trim (buf st ++ seg ++ [semicolon])) in *.
    destruct (IH (List.length rest)) with (d := rest)
      (st := fresh (Some semicolon) (results st ++ [t]))
      (st' := fresh (Some semicolon) (results st' ++ [t]))
      as (news & Hr1 & Hr2 & Hb2);
      try reflexivity; try apply fresh_at_statement_start.
    { subst d. rewrite length_app. simpl. lia. }
    exists (t :: news).
    assert (Hd : d = (seg ++ [semicolon]) ++ rest)
      by (rewrite <- app_assoc; exact E).
    assert (Hre : scan st' (concat (t :: news)) =
                  scan (fresh (Some semicolon) (results st' ++ [t]))
                       (concat news)).
    { simpl concat. rewrite Ht at 1.
      now rewrite scan_app, Hs' by apply safe_cut_terminator. }
    simpl in Hr1, Hr2.
    rewrite Hre, Hr2, Hb2, Hd, scan_app, Hs, Hr1 by apply safe_cut_terminator.
    rewrite <- !app_assoc. auto.
Qed.

(** * The claims *)

(** Claim C1, as the code has it.  On an empty or whitespace-only
    document [splitCedarPolicies] returns the empty object.  On a document
    made of comments and whitespace only that holds a comment it throws
    the trailing-content error: the text of a comment is pending like any
    other text. *)
Theorem comments_and_whitespace_documents :
  (forall d,
     forallb is_white_space d = true ->
     only_comments_and_whitespace d = true /\
     splitCedarPolicies d = Returned []) /\
  (forall d,
     only_comments_and_whitespace d = true ->
     forallb is_white_space d = false ->
     splitCedarPolicies d = Thrown error_message).
Proof.
  assert (H : forall d, only_comments_and_whitespace d = true ->
    splitCedarPolicies d =
    if forallb is_white_space d then Returned [] else Thrown error_message).
  { intros d H. apply comments_and_blanks_pending in H as [Hr Hb].
    rewrite splitCedarPolicies_spec, Hr, Hb. reflexivity. }
  split.
  - intros d W.
    assert (C : only_comments_and_whitespace d = true)
      by (now apply blanks_are_comments_and_blanks).
    split; [exact C|]. now rewrite (H d C), W.
  - intros d C W. now rewrite (H d C), W.
Qed.

Lemma comments_and_whitespace_documents_witness :
  splitCedarPolicies (of_string "  ") = Returned [] /\
  splitCedarPolicies (of_string "/* note */ // more") = Thrown error_message.
Proof.
  split.
  - apply (proj1 comments_and_whitespace_documents (of_string "  ")).
    reflexivity.
  - apply (proj2 comments_and_whitespace_documents
             (of_string "/* note */ // more")); reflexivity.
Defined.

(** Claim C1 as stated fails: a document that is one line comment is made
    of comments only and has no terminator, and the function throws. *)
Lemma comment_only_document_throws :
  ~ (forall d, only_comments_and_whitespace d = true ->
               splitCedarPolicies d = Returned []).
Proof.
  intros H.
  assert (E : splitCedarPolicies (of_string "// only a comment") =
              Thrown error_message) by reflexivity.
  rewrite H in E; [discriminate E | reflexivity].
Qed.

(** Claim C2 fails on the code.  The terminator is appended to the buffer
    before the buffer is trimmed, so that the statement cut at a structural
    terminator is never empty and the two guards on its length never drop
    anything: ["permit(principal, action, resource);;"] yields two entries,
    and in general a terminator added to a document on which the function
    returns adds the statement [";"] to the statements returned. *)
Theorem consecutive_terminators_keep_lone_semicolon :
  splitCedarPolicies (of_string "permit(principal, action, resource);;") =
    Returned [(of_string "policy_0",
               of_string "permit(principal, action, resource);");
              (of_string "policy_1", of_string ";")] /\
  (forall d m,
     splitCedarPolicies d = Returned m ->
     splitCedarPolicies (d ++ [semicolon]) =
       Returned (assign (values m ++ [of_string ";"]))).
Proof.
  split; [reflexivity|].
  intros d m H. rewrite splitCedarPolicies_spec in H.
  destruct (forallb _ _) eqn:W; [|discriminate]. injection H as <-.
  rewrite values_assign.
  destruct (scan_consistent d) as [_ Hp]. specialize (Hp W).
  rewrite splitCedarPolicies_spec.
  rewrite scan_app by (right; right; split; reflexivity).
  rewrite scan_single, step_split
    by (unfold splits_here; now rewrite Hp).
  simpl. rewrite trim_snoc by reflexivity.
  apply trimStart_nil_iff in W. rewrite W. reflexivity.
Qed.

Lemma consecutive_terminators_keep_lone_semicolon_witness :
  splitCedarPolicies (of_string "permit(a);" ++ [semicolon]) =
  Returned (assign (values [(of_string "policy_0", of_string "permit(a);")]
                    ++ [of_string ";"])).
Proof.
  apply (proj2 consecutive_terminators_keep_lone_semicolon
           (of_string "permit(a);")).
  reflexivity.
Defined.

(** Claim C3.  Whenever a character that is not whitespace is pending in
    the buffer once the whole document has been scanned (be it structural
    text, or inside a string or a comment), [splitCedarPolicies] throws and
    returns no object, whatever statements had been cut before; the
    function throws no other error than this one.  The document
    ["permit(principal, action, resource)"], which has no terminator, is
    such a case; so is a document whose first statement is complete. *)
Theorem trailing_content_rejected :
  (forall d,
     (exists c, In c (buf (scan initial d)) /\ is_white_space c = false) ->
     splitCedarPolicies d = Thrown error_message /\
     forall m, splitCedarPolicies d <> Returned m) /\
  (forall d message,
     splitCedarPolicies d = Thrown message -> message = error_message) /\
  splitCedarPolicies (of_string "permit(principal, action, resource)") =
    Thrown error_message /\
  (results (scan initial (of_string "permit(a); forbid(b)")) =
     [of_string "permit(a);"] /\
   splitCedarPolicies (of_string "permit(a); forbid(b)") =
     Thrown error_message).
Proof.
  split; [|split; [|split; [reflexivity | split; reflexivity]]].
  2: { intros d message. rewrite splitCedarPolicies_spec.
       destruct (forallb _ _); [discriminate | congruence]. }
  intros d (c & Hin & Hc).
  assert (E : splitCedarPolicies d = Thrown error_message).
  { rewrite splitCedarPolicies_spec.
    destruct (forallb _ _) eqn:W; [|reflexivity].
    rewrite forallb_forall in W. rewrite (W c Hin) in Hc. discriminate. }
  split; [exact E|]. intros m. rewrite E. discriminate.
Qed.

Lemma trailing_content_rejected_witness :
  splitCedarPolicies (of_string "permit(a); forbid(b)") = Thrown error_message /\
  forall m, splitCedarPolicies (of_string "permit(a); forbid(b)") <> Returned m.
Proof.
  apply (proj1 trailing_content_rejected (of_string "permit(a); forbid(b)")).
  exists 102. split; [vm_compute; right; left; reflexivity | reflexivity].
Defined.

(** Claim C4.  Characters read while a string literal is open, terminators
    included, cut no statement and are appended to the pending buffer as
    they are.  For a whole document: when the characters [s] lie inside a
    string literal and the function returns, one of the returned
    statements contains [s] unchanged.  In particular the document
    [permit(principal, action, resource) when { attr == "value;with;semicolons" };]
    yields exactly one statement, the document itself, with the literal in
    it. *)
Theorem terminators_in_string_literals_do_not_split :
  (forall st s rest,
     inString st = true -> in_comment st = false ->
     stays_in_string (prev st) s = true ->
     scan st (s ++ rest) = scan (after_literal st s) rest) /\
  (forall pre s rest m,
     inString (scan initial pre) = true ->
     stays_in_string (last_char pre None) s = true ->
     splitCedarPolicies (pre ++ s ++ rest) = Returned m ->
     exists t a b, In t (values m) /\ t = a ++ s ++ b) /\
  splitCedarPolicies quoted_semicolons =
    Returned [(of_string "policy_0", quoted_semicolons)].
Proof.
  split; [intros; now apply scan_in_string|]. split; [|reflexivity].
  intros pre s rest m Hs Hq H.
  rewrite splitCedarPolicies_spec in H.
  destruct (forallb _ _) eqn:W; [|discriminate]. injection H as <-.
  destruct (scan_consistent pre) as [Hc Hp].
  set (st1 := scan initial pre) in *.
  assert (Hnb : forallb is_white_space (buf st1) = false).
  { destruct (forallb is_white_space (buf st1)); [|reflexivity].
    specialize (Hp eq_refl). unfold structural in Hp. rewrite Hs in Hp.
    discriminate Hp. }
  assert (E : scan initial (pre ++ s ++ rest) = scan (after_literal st1 s) rest).
  { rewrite scan_app_in_string by exact Hs. fold st1.
    apply scan_in_string; [exact Hs | now apply Hc|].
    unfold st1. now rewrite scan_prev. }
  rewrite E in W. rewrite E, values_assign.
  destruct (scan_first_split rest (after_literal st1 s))
    as [[_ Hb] | (seg & R & -> & Hseg)].
  - exfalso. rewrite Hb in W. simpl in W. rewrite !forallb_app in W.
    rewrite Hnb in W. discriminate W.
  - change (seg ++ semicolon :: R) with (seg ++ [semicolon] ++ R).
    rewrite app_assoc, scan_app, Hseg by apply safe_cut_terminator.
    destruct (scan_results_grow R
                (fresh (Some semicolon)
                   (results (after_literal st1 s) ++
                    [trim (buf (after_literal st1 s) ++ seg ++ [semicolon])])))
      as [news ->].
    simpl.
    exists (trim ((buf st1 ++ s) ++ seg ++ [semicolon])),
           (trimStart (buf st1)), (seg ++ [semicolon]).
    split.
    + apply in_or_app. left. apply in_or_app. right. now left.
    + rewrite (app_assoc _ seg), trim_snoc by reflexivity.
      rewrite <- !app_assoc, trimStart_app_nonblank by exact Hnb.
      now rewrite <- !app_assoc.
Qed.

Lemma terminators_in_string_literals_do_not_split_witness :
  exists t a b,
    In t (values [(of_string "policy_0", quoted_semicolons)]) /\
    t = a ++ of_string "value;with;semicolons" ++ b.
Proof.
  apply (proj1 (proj2 terminators_in_string_literals_do_not_split)
           (of_string "permit(principal, action, resource) when { attr == "
            ++ [dquote])
           (of_string "value;with;semicolons")
           (dquote :: of_string " };")
           [(of_string "policy_0", quoted_semicolons)]);
    reflexivity.
Defined.

(** Claim C5.  At a position inside a line comment or a block comment the
    iteration appends the character to the pending buffer and tests the
    exit of that mode only (a newline for a line comment, a slash after a
    star for a block comment): whatever the character, a terminator and a
    double quote included, no statement is cut, the string mode is left as
    it is and no lookahead is consumed. *)
Theorem comment_modes_only_check_exit
  (st : state) (ch : char) (next : option char) :
  in_comment st = true ->
  snd (step st ch next) = false /\
  results (fst (step st ch next)) = results st /\
  inString (fst (step st ch next)) = inString st /\
  buf (fst (step st ch next)) = buf st ++ [ch] /\
  prev (fst (step st ch next)) = Some ch /\
  (inLineComment st = true ->
     inLineComment (fst (step st ch next)) = negb (ch =? newline) /\
     inBlockComment (fst (step st ch next)) = inBlockComment st) /\
  (inLineComment st = false ->
     inLineComment (fst (step st ch next)) = false /\
     inBlockComment (fst (step st ch next)) =
       negb (is_char (prev st) star && (ch =? slash))).
Proof.
  unfold in_comment, step. destruct st as [rs b s lc bc p]; simpl.
  destruct lc; simpl.
  - intros _. repeat split; discriminate.
  - intros ->. simpl. repeat split; discriminate.
Qed.

Lemma comment_modes_only_check_exit_witness :
  buf (fst (step (scan initial (of_string "/* a")) semicolon (Some dquote))) =
    of_string "/* a;" /\
  results (fst (step (scan initial (of_string "/* a")) semicolon (Some dquote)))
    = [].
Proof.
  destruct (comment_modes_only_check_exit
              (scan initial (of_string "/* a")) semicolon (Some dquote))
    as (_ & Hr & _ & Hb & _); [reflexivity|].
  split; [exact Hb | exact Hr].
Defined.

(** Claim C6.  When [splitCedarPolicies] returns, every statement of the
    returned object is free of leading and trailing whitespace (it is its
    own [trim], and its first character is not a blank) and its last
    character is the terminator that closed it.  In particular
    ["permit(principal, action, resource);"] yields exactly one entry, keyed
    [policy_0], equal to the trimmed input. *)
Theorem statements_trimmed_and_terminated :
  (forall d m,
     splitCedarPolicies d = Returned m ->
     forall t, In t (values m) ->
       trim t = t /\
       (forall c, hd_error t = Some c -> is_white_space c = false) /\
       t <> [] /\ last t 0 = semicolon) /\
  splitCedarPolicies (of_string "permit(principal, action, resource);") =
  Returned [(of_string "policy_0",
             trim (of_string "permit(principal, action, resource);"))].
Proof.
  split; [|reflexivity].
  intros d m H t Ht.
  rewrite splitCedarPolicies_spec in H.
  destruct (forallb _ _); [|discriminate]. injection H as <-.
  rewrite values_assign in Ht.
  assert (T : Forall terminated (results (scan initial d)))
    by (apply scan_terminated; constructor).
  rewrite Forall_forall in T. destruct (T t Ht) as [body ->].
  repeat split.
  - rewrite trim_snoc, trimStart_idem; reflexivity.
  - destruct (trimStart body) as [|x b] eqn:E; simpl; intros c Hc;
      injection Hc as <-; [reflexivity | now apply trimStart_head in E].
  - now destruct (trimStart body).
  - apply last_last.
Qed.

Lemma statements_trimmed_and_terminated_witness :
  trim (of_string "b ;") = of_string "b ;" /\
  (forall c, hd_error (of_string "b ;") = Some c -> is_white_space c = false) /\
  of_string "b ;" <> [] /\ last (of_string "b ;") 0 = semicolon.
Proof.
  apply (proj1 statements_trimmed_and_terminated (of_string " a; b ;")
           [(policy_key 0, of_string "a;"); (policy_key 1, of_string "b ;")]).
  - reflexivity.
  - simpl. right. left. reflexivity.
Defined.

(** Claim C7.  When [splitCedarPolicies] returns, the keys of the object
    are [policy_0], ..., [policy_(k-1)] in this order, [k] being the number
    of statements kept: no key is skipped and none is used twice.  The
    values are, in the same order, the trimmed segments into which the
    terminators cut the document, so that insertion order is source
    order. *)
Theorem identifiers_dense_in_source_order (d : jsstring) (m : record) :
  splitCedarPolicies d = Returned m ->
  keys m = map policy_key (seq 0 (List.length m)) /\
  NoDup (keys m) /\
  (forall i j, policy_key i = policy_key j -> i = j) /\
  exists segs tail,
    d = concat segs ++ tail /\
    Forall ends_with_terminator segs /\
    forallb is_white_space tail = true /\
    values m = map trim segs.
Proof.
  intros H. rewrite splitCedarPolicies_spec in H.
  destruct (forallb _ _) eqn:W; [|discriminate]. injection H as <-.
  assert (K : keys (assign (results (scan initial d))) =
              map policy_key (seq 0 (List.length (assign (results (scan initial d)))))).
  { rewrite keys_assign. do 2 f_equal.
    rewrite <- (values_assign (results (scan initial d))) at 1.
    unfold values. now rewrite length_map. }
  split; [exact K|]. split; [|split; [exact policy_key_inj|]].
  - rewrite K. apply NoDup_map_injective; [exact policy_key_inj|].
    apply seq_NoDup.
  - destruct (scan_segments d None []) as (segs & tail & E & Hs & Hr & Hb).
    change (fresh None []) with initial in *.
    exists segs, tail. rewrite values_assign, Hr. rewrite Hb in W.
    simpl. repeat split; assumption || reflexivity.
Qed.

Lemma identifiers_dense_in_source_order_witness :
  keys two_policies_object =
    map policy_key (seq 0 (List.length two_policies_object)) /\
  NoDup (keys two_policies_object) /\
  (forall i j, policy_key i = policy_key j -> i = j) /\
  exists segs tail,
    two_policies = concat segs ++ tail /\
    Forall ends_with_terminator segs /\
    forallb is_white_space tail = true /\
    values two_policies_object = map trim segs.
Proof.
  apply (identifiers_dense_in_source_order two_policies two_policies_object).
  reflexivity.
Defined.

(** Claim C8.  Outside a comment a double quote toggles the string mode
    unless the character of the document just before it is a backslash, in
    which case the mode is kept; either way the quote is appended to the
    buffer and nothing is cut.  The lookback is one character: after
    backslash, backslash, quote the mode is what it was before them. *)
Theorem quote_toggles_unless_after_backslash :
  (forall st next,
     in_comment st = false ->
     step st dquote next =
       (after_quote st (is_char (prev st) backslash), false)) /\
  (forall pre rest,
     in_comment (scan initial pre) = false ->
     scan initial (pre ++ dquote :: rest) =
     scan (after_quote (scan initial pre)
                       (is_char (last_char pre None) backslash)) rest) /\
  (forall st rest,
     in_comment st = false ->
     scan st (backslash :: backslash :: dquote :: rest) =
     scan {| results := results st;
             buf := buf st ++ [backslash; backslash; dquote];
             inString := inString st;
             inLineComment := false; inBlockComment := false;
             prev := Some dquote |} rest).
Proof.
  split; [exact step_quote|]. split.
  - intros pre rest H.
    rewrite scan_app by (right; right; split; reflexivity).
    rewrite scan_cons, (step_quote _ _ H), scan_prev. reflexivity.
  - intros st rest H.
    rewrite scan_cons, step_plain by (exact H || reflexivity).
    cbn [fst snd]. rewrite scan_cons, step_plain by reflexivity.
    cbn [fst snd]. rewrite scan_cons, step_quote by reflexivity.
    unfold after_quote, after_plain. simpl. rewrite <- !app_assoc.
    reflexivity.
Qed.

Lemma quote_toggles_unless_after_backslash_witness :
  scan initial (open_literal_backslash ++ dquote :: []) =
  scan (after_quote (scan initial open_literal_backslash)
          (is_char (last_char open_literal_backslash None) backslash)) [].
Proof.
  apply (proj1 (proj2 quote_toggles_unless_after_backslash)
           open_literal_backslash []).
  reflexivity.
Defined.

(** Claim C9.  When [splitCedarPolicies] returns, concatenating the
    returned statements in order and splitting the concatenation returns
    the same object: the same statements under the same keys, in the same
    order. *)
Theorem resplit_of_joined_statements (d : jsstring) (m : record) :
  splitCedarPolicies d = Returned m ->
  splitCedarPolicies (concat (values m)) = Returned m.
Proof.
  intros H. rewrite splitCedarPolicies_spec in H.
  destruct (forallb _ _); [|discriminate]. injection H as <-.
  rewrite values_assign.
  destruct (rescan d initial initial) as (news & Hr & Hr' & Hb);
    try reflexivity; try (repeat split).
  simpl in Hr, Hr'. rewrite Hr.
  now rewrite splitCedarPolicies_spec, Hr', Hb.
Qed.

Lemma resplit_of_joined_statements_witness :
  splitCedarPolicies (concat (values two_policies_object)) =
  Returned two_policies_object.
Proof.
  apply (resplit_of_joined_statements two_policies). reflexivity.
Defined.

(** Claim C10.  Opening a block comment at a structural position consumes
    the slash and the star and leaves [prev] at the star; the exit test of
    the block comment reads [prev].  Hence in ["/*/"] at a structural
    position the slash that follows the opener closes the comment at once:
    after these three characters the scan is at a structural position
    again, and a terminator that follows cuts a statement. *)
Theorem slash_star_slash_closes_at_once :
  (forall st,
     structural st = true ->
     step st slash (Some star) =
     ({| results := results st; buf := (buf st ++ [slash]) ++ [star];
         inString := false; inLineComment := false; inBlockComment := true;
         prev := Some star |}, true)) /\
  (forall st rest,
     structural st = true ->
     scan st (slash :: star :: slash :: rest) =
     scan {| results := results st; buf := buf st ++ [slash; star; slash];
             inString := false; inLineComment := false;
             inBlockComment := false; prev := Some slash |} rest) /\
  results (scan initial (of_string "/*/ permit(a); */")) =
    [of_string "/*/ permit(a);"] /\
  splitCedarPolicies (of_string "/*/;") =
    Returned [(of_string "policy_0", of_string "/*/;")].
Proof.
  assert (Hopen : forall st,
     structural st = true ->
     step st slash (Some star) =
     ({| results := results st; buf := (buf st ++ [slash]) ++ [star];
         inString := false; inLineComment := false; inBlockComment := true;
         prev := Some star |}, true)).
  { intros [rs b s lc bc p]. unfold structural, in_comment. simpl.
    intros H. bool_hyps. subst. reflexivity. }
  split; [exact Hopen|]. split; [|split; reflexivity].
  intros st rest H.
  rewrite scan_cons. simpl hd_error. rewrite (Hopen st H). simpl fst.
  simpl snd. cbv iota. simpl tl.
  rewrite scan_cons. unfold step at 1 2. simpl.
  rewrite <- !app_assoc. reflexivity.
Qed.

Lemma slash_star_slash_closes_at_once_witness :
  scan initial (of_string "/*/;") =
  scan {| results := []; buf := of_string "/*/";
          inString := false; inLineComment := false;
          inBlockComment := false; prev := Some slash |} (of_string ";").
Proof.
  apply (proj1 (proj2 slash_star_slash_closes_at_once) initial (of_string ";")).
  reflexivity.
Defined.

(** * Further properties of [splitCedarPolicies] *)

Lemma last_app_cons (b : jsstring) (c : char) (x : jsstring) :
  last (b ++ c :: x) 0 = last (c :: x) 0.
Proof.
  induction b as [|y b IH]; [reflexivity|].
  simpl app. rewrite <- IH. simpl. now destruct (b ++ c :: x) eqn:E;
    [destruct b; discriminate|].
Qed.

Lemma step_pending_prev (st : state) (ch : char) (next : option char) :
  pending_prev st -> pending_prev (fst (step st ch next)).
Proof.
  intros _. unfold pending_prev.
  destruct (splits_here st ch) eqn:S.
  - rewrite (step_split _ _ _ S). simpl. auto.
  - destruct (step_nosplit st ch next S) as [_ Hb].
    rewrite Hb, step_prev. unfold consumed.
    destruct (buf st ++ ch :: (if snd (step st ch next) then str next else []))
      eqn:E; [destruct (buf st); discriminate|].
    rewrite <- E, last_app_cons.
    destruct (snd (step st ch next)) eqn:K; [|reflexivity].
    apply step_skip in K as (_ & _ & [-> | ->]); reflexivity.
Qed.

Lemma scan_pending_prev (d : jsstring) : pending_prev (scan initial d).
Proof.
  apply (scan_invariant pending_prev).
  - intros st ch next. apply step_pending_prev.
  - left. reflexivity.
Qed.

(** Where the function returns, the scan has ended at the start of a
    statement, and the document may be continued by any text. *)
Lemma accepted_state (d : jsstring) :
  forallb is_white_space (buf (scan initial d)) = true ->
  at_statement_start (scan initial d) /\ forall d', safe_cut d d'.
Proof.
  intros W.
  destruct (scan_consistent d) as [_ Hs]. specialize (Hs W).
  pose proof (scan_pending_prev d) as Hp. unfold pending_prev in Hp.
  pose proof (scan_prev d initial) as Hl. simpl in Hl.
  assert (H : is_char (prev (scan initial d)) backslash = false /\
              is_char (prev (scan initial d)) slash = false).
  { destruct (buf (scan initial d)) as [|c b] eqn:E.
    - destruct Hp as [-> | ->]; split; reflexivity.
    - rewrite Hp.
      assert (Hc : is_white_space (last (c :: b) 0) = true).
      { rewrite forallb_forall in W. apply W.
        destruct (@exists_last _ (c :: b)) as (l & a & El); [discriminate|].
        rewrite El, last_last. apply in_or_app. right. now left. }
      apply ws_not_special in Hc as (_ & H2 & _ & H4 & _).
      unfold is_char. now rewrite H2, H4. }
  destruct H as [Hb Hsl].
  split; [repeat split; assumption|].
  intros d'. destruct d as [|c d]; [now left|].
  right. left. rewrite Hl in Hsl. simpl in Hsl.
  now apply N.eqb_neq in Hsl.
Qed.

(** Continuing an accepted document: the scan of the continuation goes as
    it would from the beginning, up to the blanks already pending. *)
Lemma scan_after_accepted (d d' : jsstring) :
  forallb is_white_space (buf (scan initial d)) = true ->
  similar (results (scan initial d)) [] (scan initial (d ++ d'))
          (scan initial d').
Proof.
  intros W. destruct (accepted_state d W) as [(Hs & _ & Hp) Hcut].
  rewrite scan_app by apply Hcut.
  apply scan_similar.
  assert (Hc : in_comment (scan initial d) = false)
    by (unfold structural in Hs; now bool_hyps).
  unfold structural, in_comment in Hs. bool_hyps.
  split; [|split].
  - unfold same_mode. simpl. repeat split; try assumption. now right.
  - exists []. simpl. now rewrite app_nil_r.
  - exists (buf (scan initial d)). simpl. now rewrite app_nil_r.
Qed.

(** The statements of an accepted document come first in those of any
    document that continues it. *)
Lemma split_app_accepted (d1 d2 : jsstring) (m1 : record) :
  splitCedarPolicies d1 = Returned m1 ->
  splitCedarPolicies (d1 ++ d2) =
  match splitCedarPolicies d2 with
  | Returned m2 => Returned (assign (values m1 ++ values m2))
  | Thrown message => Thrown message
  end.
Proof.
  intros H. rewrite splitCedarPolicies_spec in H.
  destruct (forallb _ _) eqn:W; [|discriminate]. injection H as <-.
  destruct (scan_after_accepted d1 d2 W)
    as (_ & (news & Hr & Hr') & (w & Hw & Hb)).
  rewrite !splitCedarPolicies_spec, Hr, Hb, forallb_app, Hw, !values_assign.
  simpl in Hr'. rewrite Hr'. simpl.
  destruct (forallb is_white_space (buf (scan initial d2)));
    [now rewrite values_assign | reflexivity].
Qed.

(** X2.  When the function returns on [d1], splitting [d1 ++ d2] throws if
    splitting [d2] throws, and otherwise returns the statements of [d1]
    followed by those of [d2], numbered anew. *)
Theorem split_concatenation (d1 d2 : jsstring) (m1 : record) :
  splitCedarPolicies d1 = Returned m1 ->
  splitCedarPolicies (d1 ++ d2) =
  match splitCedarPolicies d2 with
  | Returned m2 => Returned (assign (values m1 ++ values m2))
  | Thrown message => Thrown message
  end.
Proof.
  intros H. rewrite splitCedarPolicies_spec in H.
  destruct (forallb _ _) eqn:W; [|discriminate]. injection H as <-.
  destruct (scan_after_accepted d1 d2 W)
    as (_ & (news & Hr & Hr') & (w & Hw & Hb)).
  rewrite !splitCedarPolicies_spec, Hr, Hb, forallb_app, Hw, !values_assign.
  simpl in Hr'. rewrite Hr'. simpl.
  destruct (forallb is_white_space (buf (scan initial d2)));
    [now rewrite values_assign | reflexivity].
Qed.

Lemma split_concatenation_witness :
  splitCedarPolicies (of_string "permit(a); " ++ of_string "forbid(b) ;") =
  match splitCedarPolicies (of_string "forbid(b) ;") with
  | Returned m2 =>
      Returned (assign (values [(of_string "policy_0", of_string "permit(a);")]
                        ++ values m2))
  | Thrown message => Thrown message
  end.
Proof.
  apply (split_concatenation (of_string "permit(a); ")
           (of_string "forbid(b) ;")).
  reflexivity.
Defined.

(** Blanks cut no statement, wherever they are read. *)
Lemma scan_blanks_pending (w : jsstring) (st : state) :
  forallb is_white_space w = true ->
  results (scan st w) = results st /\ buf (scan st w) = buf st ++ w.
Proof.
  intros W.
  destruct (scan_first_split w st) as [H | (seg & rest & E & _)]; [exact H|].
  exfalso. rewrite forallb_forall in W.
  specialize (W semicolon). rewrite E in W.
  discriminate W. apply in_or_app. right. now left.
Qed.

(** X3.  Whitespace before and after a document changes nothing to what
    the function returns or throws. *)
Theorem surrounding_whitespace_ignored (w d w' : jsstring) :
  forallb is_white_space w = true ->
  forallb is_white_space w' = true ->
  splitCedarPolicies (w ++ d ++ w') = splitCedarPolicies d.
Proof.
  intros W W'.
  assert (Hw : splitCedarPolicies w = Returned []).
  { destruct (scan_blanks_pending w initial W) as [Hr Hb].
    simpl in Hr, Hb. now rewrite splitCedarPolicies_spec, Hr, Hb, W. }
  assert (Hd : splitCedarPolicies (d ++ w') = splitCedarPolicies d).
  { assert (Hcut : safe_cut d w').
    { right. right. destruct w' as [|c w']; [split; reflexivity|].
      simpl in W'. apply andb_true_iff in W' as [Hc _].
      apply ws_not_special in Hc as (_ & H2 & _ & _ & H5).
      simpl. now rewrite H2, H5. }
    destruct (scan_blanks_pending w' (scan initial d) W') as [Hr Hb].
    rewrite !splitCedarPolicies_spec, scan_app, Hr, Hb, forallb_app, W'
      by exact Hcut.
    now rewrite andb_true_r. }
  rewrite (split_app_accepted w (d ++ w') [] Hw), Hd.
  rewrite (splitCedarPolicies_spec d).
  destruct (forallb is_white_space (buf (scan initial d))); [|reflexivity].
  simpl. now rewrite values_assign.
Qed.

Lemma surrounding_whitespace_ignored_witness :
  splitCedarPolicies (of_string "  " ++ of_string "permit(a);" ++ [newline]) =
  splitCedarPolicies (of_string "permit(a);").
Proof.
  apply (surrounding_whitespace_ignored (of_string "  ")
           (of_string "permit(a);") [newline]);
    reflexivity.
Defined.

(** X1.  A document at whose end a string literal or a comment is still
    open is rejected: there is no separate error for them, what was read
    since they opened is pending. *)
Theorem unterminated_literal_or_comment_rejected (d : jsstring) :
  inString (scan initial d) = true \/ in_comment (scan initial d) = true ->
  splitCedarPolicies d = Thrown error_message.
Proof.
  intros H. rewrite splitCedarPolicies_spec.
  destruct (forallb _ _) eqn:W; [|reflexivity].
  destruct (scan_consistent d) as [_ Hs]. specialize (Hs W).
  unfold structural in Hs. bool_hyps.
  destruct H as [H | H]; congruence.
Qed.

Lemma unterminated_literal_or_comment_rejected_witness :
  splitCedarPolicies (of_string "permit(a); /* never closed; ") =
  Thrown error_message.
Proof.
  apply (unterminated_literal_or_comment_rejected
           (of_string "permit(a); /* never closed; ")).
  right. reflexivity.
Defined.

(** Each statement cut from the start of a statement is cut again, alone,
    when it is scanned from the start of a statement. *)
Lemma rescan_each (d : jsstring) (st : state) :
  at_statement_start st ->
  exists news,
    results (scan st d) = results st ++ news /\
    forall t st',
      In t news -> at_statement_start st' -> buf st' = [] ->
      scan st' t = fresh (Some semicolon) (results st' ++ [t]).
Proof.
  remember (List.length d) as n eqn:Hn.
  revert d st Hn.
  induction n as [n IH] using lt_wf_ind. intros d st -> Hst.
  destruct (scan_first_split d st) as [[Hr _] | (seg & rest & E & Hs)].
  - exists []. rewrite Hr, app_nil_r. split; [reflexivity|]. intros t st' [].
  - set (t0 := trim (buf st ++ seg ++ [semicolon])) in *.
    destruct (IH (List.length rest)) with (d := rest)
      (st := fresh (Some semicolon) (results st ++ [t0]))
      as (news & Hr1 & Hall);
      try reflexivity; try apply fresh_at_statement_start.
    { subst d. rewrite length_app. simpl. lia. }
    exists (t0 :: news).
    assert (Hd : d = (seg ++ [semicolon]) ++ rest)
      by (rewrite <- app_assoc; exact E).
    split.
    + rewrite Hd, scan_app, Hs, Hr1 by apply safe_cut_terminator.
      simpl. now rewrite <- app_assoc.
    + intros t st' [<- | Ht] Hst' Hb'; [|now apply Hall].
      destruct (rescan_segment st st' seg Hst Hst' Hb' Hs) as [Ht Hs'].
      fold t0 in Ht, Hs'. rewrite Ht at 1. exact Hs'.
Qed.

(** X4.  Every statement the function returns is a document on which the
    function returns that statement alone, under [policy_0]. *)
Theorem statement_splits_to_itself (d : jsstring) (m : record) (t : jsstring) :
  splitCedarPolicies d = Returned m ->
  In t (values m) ->
  splitCedarPolicies t = Returned [(policy_key 0, t)].
Proof.
  intros H Ht. rewrite splitCedarPolicies_spec in H.
  destruct (forallb _ _); [|discriminate]. injection H as <-.
  rewrite values_assign in Ht.
  destruct (rescan_each d initial) as (news & Hr & Hall); [repeat split|].
  simpl in Hr. rewrite Hr in Ht.
  rewrite splitCedarPolicies_spec, (Hall t initial Ht);
    try reflexivity; repeat split.
Qed.

Lemma statement_splits_to_itself_witness :
  splitCedarPolicies (of_string "forbid(b) ;") =
  Returned [(policy_key 0, of_string "forbid(b) ;")].
Proof.
  apply (statement_splits_to_itself two_policies two_policies_object).
  - reflexivity.
  - right. left. reflexivity.
Defined.

Lemma scan_plain_text (d : jsstring) (st : state) :
  structural st = true -> ~ In dquote d -> ~ In slash d ->
  List.length (results (scan st d)) =
  (List.length (results st) + count_occ N.eq_dec d semicolon)%nat.
Proof.
  revert st. induction d as [|c d IH]; intros st Hs Hq Hsl.
  - simpl. lia.
  - assert (Hc : in_comment st = false)
      by (unfold structural in Hs; now bool_hyps).
    assert (Hcq : (c =? dquote) = false)
      by (apply N.eqb_neq; intros ->; apply Hq; now left).
    assert (Hcs : (c =? slash) = false)
      by (apply N.eqb_neq; intros ->; apply Hsl; now left).
    assert (Hq' : ~ In dquote d) by (intros H; apply Hq; now right).
    assert (Hsl' : ~ In slash d) by (intros H; apply Hsl; now right).
    rewrite scan_cons. simpl count_occ.
    destruct (N.eq_dec c semicolon) as [-> | Hne].
    + rewrite step_split by (unfold splits_here; now rewrite Hs).
      cbn [fst snd]. rewrite IH by (assumption || reflexivity).
      simpl. rewrite length_app. simpl. lia.
    + apply N.eqb_neq in Hne.
      rewrite step_plain by assumption. cbn [fst snd].
      rewrite IH; try assumption; [reflexivity|].
      unfold structural, in_comment, after_plain in *. simpl.
      now bool_hyps; subst; rewrite H.
Qed.

(** X5.  In a document without double quotes and slashes, where no string
    literal or comment can begin, every semicolon ends a statement: when
    the function returns, it returns as many statements as the document
    has semicolons. *)
Theorem statements_count_semicolons (d : jsstring) (m : record) :
  ~ In dquote d -> ~ In slash d ->
  splitCedarPolicies d = Returned m ->
  List.length m = count_occ N.eq_dec d semicolon.
Proof.
  intros Hq Hsl H. rewrite splitCedarPolicies_spec in H.
  destruct (forallb _ _); [|discriminate]. injection H as <-.
  rewrite <- (length_map snd). fold (values (assign (results (scan initial d)))).
  rewrite values_assign.
  now rewrite (scan_plain_text d initial eq_refl Hq Hsl).
Qed.

Lemma statements_count_semicolons_witness :
  List.length two_policies_object = count_occ N.eq_dec two_policies semicolon.
Proof.
  apply (statements_count_semicolons two_policies two_policies_object).
  - vm_compute. intuition discriminate.
  - vm_compute. intuition discriminate.
  - reflexivity.
Defined.

(** X6.  Comments after the last terminator make the function throw: a
    document on which the function returns, followed by comments and
    whitespace with at least one comment in them, is rejected. *)
Theorem comment_after_last_terminator_rejected (d c : jsstring) (m : record) :
  splitCedarPolicies d = Returned m ->
  only_comments_and_whitespace c = true ->
  forallb is_white_space c = false ->
  splitCedarPolicies (d ++ c) = Thrown error_message.
Proof.
  intros Hd Hc Hw.
  rewrite (split_app_accepted d c m Hd).
  apply comments_and_blanks_pending in Hc as [Hr Hb]. simpl in Hr, Hb.
  now rewrite splitCedarPolicies_spec, Hr, Hb, Hw.
Qed.

Lemma comment_after_last_terminator_rejected_witness :
  splitCedarPolicies (of_string "permit(a);" ++ of_string " // comment")
  = Thrown error_message.
Proof.
  apply (comment_after_last_terminator_rejected (of_string "permit(a);")
           (of_string " // comment")
           [(of_string "policy_0", of_string "permit(a);")]);
    reflexivity.
Defined.

(** X7.  A document in which the terminator character does not occur
    yields no statement: the empty object if it is blank, the error
    otherwise. *)
Theorem no_terminator_no_statement (d : jsstring) :
  ~ In semicolon d ->
  splitCedarPolicies d =
  if forallb is_white_space d then Returned [] else Thrown error_message.
Proof.
  intros H.
  destruct (scan_first_split d initial) as [[Hr Hb] | (seg & rest & E & _)].
  - simpl in Hr, Hb. now rewrite splitCedarPolicies_spec, Hr, Hb.
  - exfalso. apply H. rewrite E. apply in_or_app. right. now left.
Qed.

Lemma no_terminator_no_statement_witness :
  splitCedarPolicies (of_string "permit(principal, action, resource)") =
  if forallb is_white_space (of_string "permit(principal, action, resource)")
  then Returned [] else Thrown error_message.
Proof.
  apply (no_terminator_no_statement
           (of_string "permit(principal, action, resource)")).
  vm_compute. intuition discriminate.
Defined.

Lemma nonblank_app (a b : jsstring) :
  nonblank (a ++ b) = nonblank a ++ nonblank b.
Proof. apply filter_app. Qed.

Lemma nonblank_blanks (w : jsstring) :
  forallb is_white_space w = true -> nonblank w = [].
Proof.
  induction w as [|c w IH]; [reflexivity|]. simpl.
  intros H. apply andb_true_iff in H as [-> H]. simpl. auto.
Qed.

Lemma nonblank_trimStart (s : jsstring) : nonblank (trimStart s) = nonblank s.
Proof.
  induction s as [|c s IH]; [reflexivity|]. simpl.
  destruct (is_white_space c) eqn:E; simpl; [exact IH | now rewrite E].
Qed.

Lemma nonblank_statements (segs : list jsstring) :
  Forall ends_with_terminator segs ->
  nonblank (concat (map trim segs)) = nonblank (concat segs).
Proof.
  induction 1 as [|seg segs [body ->] _ IH]; [reflexivity|].
  simpl. rewrite !nonblank_app, IH, trim_snoc by reflexivity.
  now rewrite !nonblank_app, nonblank_trimStart.
Qed.

(** X8.  The function neither adds nor loses text: when it returns, the
    statements put end to end are the document, up to whitespace. *)
Theorem nonblank_characters_conserved (d : jsstring) (m : record) :
  splitCedarPolicies d = Returned m ->
  nonblank (concat (values m)) = nonblank d.
Proof.
  intros H. rewrite splitCedarPolicies_spec in H.
  destruct (forallb _ _) eqn:W; [|discriminate]. injection H as <-.
  rewrite values_assign.
  destruct (scan_segments d None []) as (segs & tail & E & Hs & Hr & Hb).
  change (fresh None []) with initial in *.
  rewrite Hr, E. simpl. rewrite Hb in W.
  now rewrite nonblank_app, nonblank_statements, (nonblank_blanks tail),
    app_nil_r.
Qed.

Lemma nonblank_characters_conserved_witness :
  nonblank (concat (values two_policies_object)) = nonblank two_policies.
Proof.
  apply (nonblank_characters_conserved two_policies two_policies_object).
  reflexivity.
Defined.

(** * Properties of the callers *)

Lemma thrown_message (d : jsstring) (message : string) :
  splitCedarPolicies d = Thrown message -> message = error_message.
Proof.
  rewrite splitCedarPolicies_spec.
  destruct (forallb _ _); [discriminate | congruence].
Qed.

(** X9.  When [getService] throws, the instances and the cached service
    are as before the call, the cache was not used, and the error tells
    what failed, in this order: the policy file could not be read; or it
    could and the schema file could not; or both could and the policy file
    was rejected by [splitCedarPolicies], whose error goes through. *)
Theorem getService_failure_keeps_cache (V : Type)
  (readFileSync : jsstring -> jsstring + jsstring)
  (config : AuthorizationService.AuthorizationConfigType) (refresh : bool)
  (h h' : AuthorizationService.heap V) (e : exn) :
  AuthorizationService.getService readFileSync config refresh h
    = (Throw e, h') ->
  h' = h /\
  (refresh = true \/ AuthorizationService.service h = None) /\
  match e with
  | MissingAuthorizationPolicyError =>
      exists message,
        readFileSync AuthorizationService.POLICY_FILE_NAME = inr message
  | MissingAuthorizationSchemaError =>
      (exists policy,
         readFileSync AuthorizationService.POLICY_FILE_NAME = inl policy) /\
      exists message,
        readFileSync AuthorizationService.SCHEMA_FILE_NAME = inr message
  | Error message =>
      message = of_string error_message /\
      exists policy schema,
        readFileSync AuthorizationService.POLICY_FILE_NAME = inl policy /\
        readFileSync AuthorizationService.SCHEMA_FILE_NAME = inl schema /\
        splitCedarPolicies policy = Thrown error_message
  | _ => False
  end.
Proof.
  unfold AuthorizationService.getService, loadFileAsString,
    AuthorizationService.new.
  intros H.
  assert (Hc : refresh = true \/ AuthorizationService.service h = None).
  { destruct refresh; [now left|]. right.
    destruct (AuthorizationService.service h); [discriminate H | reflexivity]. }
  assert (E : (if negb refresh then AuthorizationService.service h else None)
              = None)
    by (destruct Hc as [-> | ->]; [reflexivity | now destruct refresh]).
  rewrite E in H. clear E.
  destruct (readFileSync AuthorizationService.POLICY_FILE_NAME)
    as [policy | m1] eqn:Hp.
  - destruct (readFileSync AuthorizationService.SCHEMA_FILE_NAME)
      as [schema | m2] eqn:Hsch.
    + destruct (splitCedarPolicies policy) as [m | message] eqn:Hsplit;
        [discriminate H|].
      injection H as <- <-. pose proof (thrown_message _ _ Hsplit) as ->.
      repeat split; eauto.
    + injection H as <- <-. repeat split; eauto.
  - injection H as <- <-. repeat split; eauto.
Qed.

Lemma getService_failure_keeps_cache_witness :
  AuthorizationService.empty unit = AuthorizationService.empty unit /\
  (true = true \/
   AuthorizationService.service (AuthorizationService.empty unit) = None) /\
  of_string error_message = of_string error_message /\
  exists policy schema,
    files_with_malformed_policy AuthorizationService.POLICY_FILE_NAME
      = inl policy /\
    files_with_malformed_policy AuthorizationService.SCHEMA_FILE_NAME
      = inl schema /\
    splitCedarPolicies policy = Thrown error_message.
Proof.
  apply (getService_failure_keeps_cache unit files_with_malformed_policy
           order_service true (AuthorizationService.empty unit)
           (AuthorizationService.empty unit)
           (Error (of_string error_message))).
  reflexivity.
Defined.

(** X10.  A call of [getService] that refreshes and returns has read both
    files and created an instance with the configuration given, the
    statements of the policy file and no action, resource or entities;
    this instance is the cached service, and every later call that does
    not refresh returns it as it is, whatever the configuration and the
    files of that call. *)
Theorem getService_cached_ignores_config (V : Type)
  (readFileSync : jsstring -> jsstring + jsstring)
  (config : AuthorizationService.AuthorizationConfigType)
  (h h1 : AuthorizationService.heap V) (this : nat) :
  AuthorizationService.getService readFileSync config true h = (Ok this, h1) ->
  (exists o policy schema,
     nth_error (AuthorizationService.objects h1) this = Some o /\
     readFileSync AuthorizationService.POLICY_FILE_NAME = inl policy /\
     readFileSync AuthorizationService.SCHEMA_FILE_NAME = inl schema /\
     splitCedarPolicies policy = Returned (AuthorizationService.policy o) /\
     AuthorizationService.schema o = schema /\
     AuthorizationService.authorizationConfig o = config /\
     AuthorizationService.action o = None /\
     AuthorizationService.resource o = None /\
     AuthorizationService.entities o = None) /\
  forall readFileSync' config',
    AuthorizationService.getService readFileSync' config' false h1
    = (Ok this, h1).
Proof.
  unfold AuthorizationService.getService at 1.
  unfold loadFileAsString, AuthorizationService.new. simpl.
  destruct (readFileSync AuthorizationService.POLICY_FILE_NAME)
    as [policy | m1] eqn:Hp; [|discriminate].
  destruct (readFileSync AuthorizationService.SCHEMA_FILE_NAME)
    as [schema | m2] eqn:Hsch; [|discriminate].
  destruct (splitCedarPolicies policy) as [m | message] eqn:Hsplit;
    [|discriminate].
  intros H. injection H as <- <-. split.
  - eexists _, policy, schema. simpl.
    rewrite nth_error_app2, Nat.sub_diag by lia. simpl.
    repeat split; eauto.
  - reflexivity.
Qed.

Lemma getService_cached_ignores_config_witness :
  (exists o policy schema,
     nth_error (AuthorizationService.objects one_policy_heap) 0 = Some o /\
     files_with_one_policy AuthorizationService.POLICY_FILE_NAME
       = inl policy /\
     files_with_one_policy AuthorizationService.SCHEMA_FILE_NAME
       = inl schema /\
     splitCedarPolicies policy = Returned (AuthorizationService.policy o) /\
     AuthorizationService.schema o = schema /\
     AuthorizationService.authorizationConfig o = order_service /\
     AuthorizationService.action o = None /\
     AuthorizationService.resource o = None /\
     AuthorizationService.entities o = None) /\
  forall readFileSync' config',
    AuthorizationService.getService readFileSync' config' false one_policy_heap
    = (Ok 0%nat, one_policy_heap).
Proof.
  apply (getService_cached_ignores_config unit files_with_one_policy
           order_service (AuthorizationService.empty unit)).
  reflexivity.
Defined.

Lemma nth_error_assign_at (V : Type) (method : AuthorizationService.t V ->
                                               AuthorizationService.t V)
  (l : list (AuthorizationService.t V)) (this : nat)
  (o : AuthorizationService.t V) :
  nth_error l this = Some o ->
  nth_error (AuthorizationService.assign_at this method l) this
  = Some (method o).
Proof.
  revert this. induction l as [|x l IH]; intros [|n]; simpl;
    try discriminate.
  - intros H. injection H as ->. reflexivity.
  - apply IH.
Qed.

(** X14.  Entities added to the cached service stay on it: [getService]
    without refresh returns the very instance, with the entities added
    before, and an entity added afterwards comes after them.  Nothing but
    [setEntities] or a refresh takes them away. *)
Theorem entities_accumulate_on_cached_service (V : Type)
  (readFileSync : jsstring -> jsstring + jsstring)
  (config : AuthorizationService.AuthorizationConfigType)
  (h : AuthorizationService.heap V) (this : nat)
  (o : AuthorizationService.t V) (first second : Cedar.EntityJson V) :
  AuthorizationService.service h = Some this ->
  nth_error (AuthorizationService.objects h) this = Some o ->
  AuthorizationService.getService readFileSync config false
    (AuthorizationService.call this (AuthorizationService.addEntity first) h)
  = (Ok this,
     AuthorizationService.call this (AuthorizationService.addEntity first) h)
  /\
  exists o',
    nth_error
      (AuthorizationService.objects
         (AuthorizationService.call this
            (AuthorizationService.addEntity second)
            (AuthorizationService.call this
               (AuthorizationService.addEntity first) h)))
      this = Some o' /\
    AuthorizationService.entities o' =
      Some (match AuthorizationService.entities o with
            | Some entities => entities
            | None => []
            end ++ [first; second]).
Proof.
  intros Hs Ho. split.
  - unfold AuthorizationService.getService. simpl. now rewrite Hs.
  - eexists. split.
    + simpl. apply nth_error_assign_at, nth_error_assign_at, Ho.
    + simpl. now rewrite <- app_assoc.
Qed.

Lemma entities_accumulate_on_cached_service_witness :
  exists o',
    nth_error
      (AuthorizationService.objects
         (AuthorizationService.call 0
            (AuthorizationService.addEntity (order_entity (of_string "order-2")))
            (AuthorizationService.call 0
               (AuthorizationService.addEntity
                  (order_entity (of_string "order-1")))
               one_policy_heap)))
      0 = Some o' /\
    AuthorizationService.entities o' =
      Some ([] ++ [order_entity (of_string "order-1");
                   order_entity (of_string "order-2")]).
Proof.
  apply (entities_accumulate_on_cached_service unit files_with_one_policy
           order_service one_policy_heap 0 one_policy_service
           (order_entity (of_string "order-1"))
           (order_entity (of_string "order-2")));
    reflexivity.
Defined.

(** X11.  [build] returns a request exactly when the user is known (a
    user name that is not empty, and roles, be they an empty array) and
    the action and the resource are set and not empty.  Otherwise it
    throws the error of the first of these that is missing, the user
    first, then the action, then the resource, and no other error. *)
Theorem build_validation_order (V J : Type)
  (JSON_parse : jsstring -> option J)
  (this : AuthorizationService.t V) (details : UserDetails.t) :
  (AuthorizationService.build JSON_parse this details
     = Throw MissingAuthenticatedUserDetailsError
   <-> user_known details = false) /\
  (AuthorizationService.build JSON_parse this details
     = Throw MissingAuthorizationActionError
   <-> user_known details = true /\
       truthy (AuthorizationService.action this) = false) /\
  (AuthorizationService.build JSON_parse this details
     = Throw MissingAuthorizationResourceError
   <-> user_known details = true /\
       truthy (AuthorizationService.action this) = true /\
       truthy (AuthorizationService.resource this) = false) /\
  ((exists call,
      AuthorizationService.build JSON_parse this details = Ok call)
   <-> user_known details = true /\
       truthy (AuthorizationService.action this) = true /\
       truthy (AuthorizationService.resource this) = true) /\
  (forall e,
     AuthorizationService.build JSON_parse this details = Throw e ->
     e = MissingAuthenticatedUserDetailsError \/
     e = MissingAuthorizationActionError \/
     e = MissingAuthorizationResourceError).
Proof.
  destruct this as [c p sch a r ctx es], details as [u rs].
  unfold AuthorizationService.build,
    AuthorizationService.validateAuthorizationProperties,
    AuthorizationService.constructUserEntity, user_known. simpl.
  destruct u as [[|x u]|], rs as [rs|], a as [[|y a]|], r as [[|z r]|];
    simpl; repeat split; intros;
    repeat match goal with
    | H : _ /\ _ |- _ => destruct H
    | H : exists _, _ |- _ => destruct H
    | H : Throw _ = Throw ?e |- ?e = _ \/ _ => injection H as <-
    end;
    try discriminate; try reflexivity; eauto.
Qed.

Lemma build_validation_order_witness :
  exists call,
    AuthorizationService.build no_json get_order_service customer_details
    = Ok call.
Proof.
  apply (proj1 (proj2 (proj2 (proj2
           (build_validation_order unit unit no_json get_order_service
              customer_details))))).
  repeat split.
Defined.

(** X12.  In the request that [build] returns the principal is the user
    of the details, and it is the first entity; the entities given by the
    caller follow in their order, then one entity for each role of the
    user, without parents and attributes.  The parents of the principal
    are the identifiers of these role entities, so that each of them is
    among the entities.  The policies are the statements the instance was
    created with. *)
Theorem build_request_entities (V J : Type)
  (JSON_parse : jsstring -> option J)
  (this : AuthorizationService.t V) (details : UserDetails.t)
  (call : Cedar.AuthorizationCall V J) :
  AuthorizationService.build JSON_parse this details = Ok call ->
  exists userName roles user,
    UserDetails.userName details = Some userName /\
    UserDetails.roles details = Some roles /\
    Cedar.principal call =
      Cedar.Uid
        {| Cedar.type :=
             template (AuthorizationService.namespace
                         (AuthorizationService.authorizationConfig this))
             ++ AuthorizationService.principleType
                  (AuthorizationService.authorizationConfig this);
           Cedar.id := userName |} /\
    Cedar.uid user = Cedar.principal call /\
    Cedar.entities call =
      user :: match AuthorizationService.entities this with
              | Some entities => entities
              | None => []
              end
           ++ AuthorizationService.constructRoleEntities this details /\
    Cedar.parents user =
      map (@Cedar.uid V)
          (AuthorizationService.constructRoleEntities this details) /\
    map (fun e => Cedar.id match Cedar.uid e with
                           | Cedar.Uid u => u
                           | Cedar.EntityEscape u => u
                           end)
        (AuthorizationService.constructRoleEntities this details) = roles /\
    Forall (fun e => Cedar.parents e = [] /\ Cedar.attrs e = [])
           (AuthorizationService.constructRoleEntities this details) /\
    Cedar.staticPolicies (Cedar.policies call)
      = AuthorizationService.policy this.
Proof.
  destruct this as [c p sch a r ctx es], details as [u rs].
  unfold AuthorizationService.build,
    AuthorizationService.validateAuthorizationProperties,
    AuthorizationService.constructUserEntity,
    AuthorizationService.constructRoleEntities,
    AuthorizationService.map_roles. simpl.
  destruct u as [[|x u]|], rs as [rs|], a as [[|y a]|], r as [[|z r]|];
    simpl; try discriminate.
  intros H. injection H as <-. simpl.
  eexists (x :: u), rs, _. repeat split.
  - reflexivity.
  - simpl. now rewrite map_map.
  - rewrite map_map. simpl. apply map_id.
  - apply Forall_forall. intros e He. apply in_map_iff in He as (role & <- & _).
    split; reflexivity.
Qed.

Lemma build_request_entities_witness :
  exists call,
    AuthorizationService.build no_json get_order_service customer_details
      = Ok call /\
    Cedar.staticPolicies (Cedar.policies call)
      = AuthorizationService.policy get_order_service /\
    List.length (Cedar.entities call) = 3%nat.
Proof.
  eexists. split; [reflexivity|].
  destruct (build_request_entities unit unit no_json get_order_service
              customer_details _ eq_refl)
    as (userName & roles & user & _ & _ & _ & _ & _ & _ & _ & _ & Hp).
  split; [exact Hp | reflexivity].
Defined.

(** X13.  The namespace of the configuration is optional, and the types
    of the request are made from it as it is: without a namespace the
    types of the principal, the action and the resource begin with the
    text [undefined]. *)
Theorem build_missing_namespace (V J : Type)
  (JSON_parse : jsstring -> option J)
  (this : AuthorizationService.t V) (details : UserDetails.t)
  (call : Cedar.AuthorizationCall V J) :
  AuthorizationService.namespace
    (AuthorizationService.authorizationConfig this) = None ->
  AuthorizationService.build JSON_parse this details = Ok call ->
  exists userName action resource,
    Cedar.principal call =
      Cedar.Uid
        {| Cedar.type :=
             of_string "undefined"
             ++ AuthorizationService.principleType
                  (AuthorizationService.authorizationConfig this);
           Cedar.id := userName |} /\
    Cedar.action call =
      Cedar.Uid {| Cedar.type := of_string "undefinedAction";
                   Cedar.id := action |} /\
    Cedar.resource call =
      Cedar.Uid
        {| Cedar.type :=
             of_string "undefined"
             ++ AuthorizationService.resourceType
                  (AuthorizationService.authorizationConfig this);
           Cedar.id := resource |}.
Proof.
  destruct this as [[ns pt rt rl] p sch a r ctx es], details as [u rs].
  unfold AuthorizationService.build,
    AuthorizationService.validateAuthorizationProperties,
    AuthorizationService.constructUserEntity. simpl.
  intros ->.
  destruct u as [[|x u]|], rs as [rs|], a as [[|y a]|], r as [[|z r]|];
    simpl; try discriminate.
  intros H. injection H as <-. simpl.
  do 3 eexists. repeat split.
Qed.

Lemma build_missing_namespace_witness :
  exists userName action resource,
    Cedar.principal (no_namespace_call) =
      Cedar.Uid {| Cedar.type := of_string "undefined" ++ of_string "User";
                   Cedar.id := userName |} /\
    Cedar.action (no_namespace_call) =
      Cedar.Uid {| Cedar.type := of_string "undefinedAction";
                   Cedar.id := action |} /\
    Cedar.resource (no_namespace_call) =
      Cedar.Uid {| Cedar.type := of_string "undefined" ++ of_string "Order";
                   Cedar.id := resource |}.
Proof.
  apply (build_missing_namespace unit unit no_json no_namespace_service
           customer_details no_namespace_call);
    reflexivity.
Defined.

Lemma setUserDetails_unauthenticated (event : Event.APIGatewayProxyEvent)
  (s : UserDetails.t) :
  unauthenticated event -> UserDetails.setUserDetails event s = (Ok tt, s).
Proof.
  unfold UserDetails.setUserDetails.
  intros [-> | (rc & -> & ->)]; reflexivity.
Qed.

Lemma after_events_unauthenticated (events : list Event.APIGatewayProxyEvent)
  (s : UserDetails.t) :
  Forall unauthenticated events -> after_events events s = s.
Proof.
  unfold after_events. intros H. revert s.
  induction H as [|event events He _ IH]; intros s; [reflexivity|].
  simpl. now rewrite (setUserDetails_unauthenticated event s He).
Qed.

(** X15.  After any sequence of calls of [setUserDetails], the user
    details are those of the last event that carried claims, whatever was
    stored before: the events without authorizer that came after it have
    changed nothing, so that the user of that event is still the one
    [getUserName] returns.  A single group given as a string is stored as
    the array of that one group. *)
Theorem last_event_with_claims_wins
  (earlier later : list Event.APIGatewayProxyEvent)
  (event : Event.APIGatewayProxyEvent)
  (requestContext : Event.RequestContext) (authorizer : Event.Authorizer)
  (claims : Event.Claims) (s s' : UserDetails.t) :
  Event.requestContext event = Some requestContext ->
  Event.authorizer requestContext = Some authorizer ->
  Event.claims authorizer = Some claims ->
  Forall unauthenticated later ->
  after_events (earlier ++ event :: later) s
    = snd (UserDetails.setUserDetails event s') /\
  UserDetails.getUserName (after_events (earlier ++ event :: later) s)
    = Event.cognito_username claims /\
  (forall group,
     Event.cognito_groups claims = Event.One group ->
     UserDetails.getRoles (after_events (earlier ++ event :: later) s)
       = Some [group]) /\
  (forall groups,
     Event.cognito_groups claims = Event.Many groups ->
     UserDetails.getRoles (after_events (earlier ++ event :: later) s)
       = Some groups).
Proof.
  intros Hrc Ha Hc Hl.
  assert (E : forall s0,
    after_events (earlier ++ event :: later) s
    = snd (UserDetails.setUserDetails event s0)).
  { intros s0. unfold after_events. rewrite fold_left_app. simpl.
    fold (after_events later).
    rewrite (after_events_unauthenticated later _ Hl).
    unfold UserDetails.setUserDetails. now rewrite Hrc, Ha, Hc. }
  split; [apply E|]. rewrite (E s).
  unfold UserDetails.setUserDetails. rewrite Hrc, Ha, Hc. simpl.
  repeat split; intros g ->; reflexivity.
Qed.

Lemma last_event_with_claims_wins_witness :
  UserDetails.getUserName
    (after_events
       ([cognito_event (of_string "alice") (Event.Many [])]
        ++ cognito_event (of_string "bob") (Event.One (of_string "admin"))
        :: [anonymous_event (of_string "false")])
       UserDetails.initial)
  = Some (of_string "bob").
Proof.
  apply (last_event_with_claims_wins
           [cognito_event (of_string "alice") (Event.Many [])]
           [anonymous_event (of_string "false")]
           (cognito_event (of_string "bob") (Event.One (of_string "admin")))
           _ _ _ UserDetails.initial UserDetails.initial
           eq_refl eq_refl eq_refl).
  constructor; [|constructor].
  right. eexists. split; reflexivity.
Defined.

(** X17.  The [before] hook of the middleware first calls
    [setUserDetails], so that the user details are those after that call
    whatever becomes of the service; when [setUserDetails] throws, the hook
    throws and the service is not touched.  A cached service is kept
    unless the header [cedar-refresh] is exactly the text [true]; with that
    header the service is loaded anew. *)
Theorem before_refresh_and_order (V : Type)
  (readFileSync : jsstring -> jsstring + jsstring)
  (config : AuthorizationService.AuthorizationConfigType)
  (event : Event.APIGatewayProxyEvent) (w : Middleware.world V) :
  Middleware.userDetails (snd (Middleware.before readFileSync config event w))
    = snd (UserDetails.setUserDetails event (Middleware.userDetails w)) /\
  (forall e,
     fst (UserDetails.setUserDetails event (Middleware.userDetails w))
       = Throw e ->
     fst (Middleware.before readFileSync config event w) = Throw e /\
     Middleware.authorization
       (snd (Middleware.before readFileSync config event w))
       = Middleware.authorization w) /\
  (forall cached,
     AuthorizationService.service (Middleware.authorization w) = Some cached ->
     refresh_header event <> Some (of_string "true") ->
     Middleware.authorization
       (snd (Middleware.before readFileSync config event w))
       = Middleware.authorization w) /\
  (refresh_header event = Some (of_string "true") ->
   fst (UserDetails.setUserDetails event (Middleware.userDetails w)) = Ok tt ->
   Middleware.authorization
     (snd (Middleware.before readFileSync config event w))
     = snd (AuthorizationService.getService readFileSync config true
              (Middleware.authorization w))).
Proof.
  unfold Middleware.before, refresh_header.
  destruct (UserDetails.setUserDetails event (Middleware.userDetails w))
    as [[[]|e0] details] eqn:Hset; simpl.
  - split; [|split; [|split]].
    + now destruct (AuthorizationService.getService _ _ _ _) as [[|] ?].
    + intros e H. discriminate H.
    + intros cached Hs Hh.
      assert (R : match Event.headers event with
                  | Some headers =>
                      if truthy (headers (of_string "cedar-refresh"))
                      then match headers (of_string "cedar-refresh") with
                           | Some value => str_eqb value (of_string "true")
                           | None => false
                           end
                      else false
                  | None => false
                  end = false).
      { destruct (Event.headers event) as [hs|]; [|reflexivity].
        destruct (hs (of_string "cedar-refresh")) as [v|]; [|reflexivity].
        destruct (truthy (Some v)); [|reflexivity].
        destruct (str_eqb v (of_string "true")) eqn:E; [|reflexivity].
        apply str_eqb_eq in E. subst v. now elim Hh. }
      rewrite R. unfold AuthorizationService.getService. simpl.
      now rewrite Hs.
    + intros Hh _.
      destruct (Event.headers event) as [hs|]; [|discriminate Hh].
      rewrite Hh. simpl.
      now destruct (AuthorizationService.getService _ _ _ _) as [[|] ?].
  - split; [reflexivity|]. split; [|split].
    + intros e H. injection H as <-. split; reflexivity.
    + reflexivity.
    + intros _ H. discriminate H.
Qed.

Lemma before_refresh_and_order_witness :
  Middleware.authorization
    (snd (Middleware.before files_with_malformed_policy order_service
            (anonymous_event (of_string "TRUE"))
            {| Middleware.userDetails := customer_details;
               Middleware.authorization := one_policy_heap |}))
  = one_policy_heap.
Proof.
  apply (proj1 (proj2 (proj2
           (before_refresh_and_order unit files_with_malformed_policy
              order_service (anonymous_event (of_string "TRUE"))
              {| Middleware.userDetails := customer_details;
                 Middleware.authorization := one_policy_heap |})))
           0%nat eq_refl).
  vm_compute. discriminate.
Defined.

(** X16.  On a warm instance, the hook lets an event without authorizer
    pass and changes nothing, unless the event asks for a refresh: the
    user details stay those of the request before, and the request that
    [build] makes afterwards is the one it would have made for that
    user. *)
Theorem unauthenticated_event_keeps_identity (V J : Type)
  (readFileSync : jsstring -> jsstring + jsstring)
  (JSON_parse : jsstring -> option J)
  (config : AuthorizationService.AuthorizationConfigType)
  (event : Event.APIGatewayProxyEvent) (w : Middleware.world V)
  (cached : nat) (this : AuthorizationService.t V) :
  unauthenticated event ->
  AuthorizationService.service (Middleware.authorization w) = Some cached ->
  refresh_header event <> Some (of_string "true") ->
  Middleware.before readFileSync config event w = (Ok tt, w) /\
  AuthorizationService.build JSON_parse this
    (Middleware.userDetails
       (snd (Middleware.before readFileSync config event w)))
  = AuthorizationService.build JSON_parse this (Middleware.userDetails w).
Proof.
  intros Hu Hs Hh.
  assert (E : Middleware.before readFileSync config event w = (Ok tt, w)).
  { unfold Middleware.before.
    rewrite (setUserDetails_unauthenticated event _ Hu).
    assert (R : match Event.headers event with
                | Some headers =>
                    if truthy (headers (of_string "cedar-refresh"))
                    then match headers (of_string "cedar-refresh") with
                         | Some value => str_eqb value (of_string "true")
                         | None => false
                         end
                    else false
                | None => false
                end = false).
    { unfold refresh_header in Hh.
      destruct (Event.headers event) as [hs|]; [|reflexivity].
      destruct (hs (of_string "cedar-refresh")) as [v|]; [|reflexivity].
      destruct (truthy (Some v)); [|reflexivity].
      destruct (str_eqb v (of_string "true")) eqn:E; [|reflexivity].
      apply str_eqb_eq in E. subst v. now elim Hh. }
    rewrite R. unfold AuthorizationService.getService. simpl.
    rewrite Hs. now destruct w. }
  split; [exact E | now rewrite E].
Qed.

Lemma unauthenticated_event_keeps_identity_witness :
  Middleware.before files_with_one_policy order_service
    (anonymous_event (of_string "false"))
    {| Middleware.userDetails := customer_details;
       Middleware.authorization := one_policy_heap |}
  = (Ok tt,
     {| Middleware.userDetails := customer_details;
        Middleware.authorization := one_policy_heap |}).
Proof.
  apply (unauthenticated_event_keeps_identity unit unit files_with_one_policy
           no_json order_service (anonymous_event (of_string "false"))
           {| Middleware.userDetails := customer_details;
              Middleware.authorization := one_policy_heap |}
           0%nat get_order_service).
  - right. eexists. split; reflexivity.
  - reflexivity.
  - vm_compute. discriminate.
Defined.
